(** * ansi-escapes: escape-sequence constants and formatters (escapes.go)

    A shallow embedding of [escapes.go]: Go strings are byte strings
    ([string], one [ascii] per byte), byte slices are [list byte], Go's
    [int] is a [Z] kept in the range of the platform's word size with the
    wrap-around of [+] and unary [-] written out. *)

From Stdlib Require Import ZArith String Ascii List Bool Lia.
From Stdlib Require Import Strings.Byte.
Import ListNotations.

Open Scope string_scope.
Open Scope Z_scope.

(** ** Go's [int] *)

Module GoInt.

(** Go's [int] is 32 or 64 bits wide, depending on the platform. *)
Inductive arch : Set := Arch32 | Arch64.

Definition intSize (a : arch) : Z :=
  match a with Arch32 => 32 | Arch64 => 64 end.

Definition MinInt (a : arch) : Z := - 2 ^ (intSize a - 1).
Definition MaxInt (a : arch) : Z := 2 ^ (intSize a - 1) - 1.

(** The values an [int] variable can hold. *)
Definition is_int (a : arch) (x : Z) : Prop := MinInt a <= x <= MaxInt a.

Definition is_intb (a : arch) (x : Z) : bool :=
  (MinInt a <=? x) && (x <=? MaxInt a).

(** Two's complement reduction of a mathematical result. *)
Definition wrap (a : arch) (x : Z) : Z :=
  (x + 2 ^ (intSize a - 1)) mod 2 ^ intSize a - 2 ^ (intSize a - 1).

(** [x + y] and [-x] on [int]: overflow wraps around silently. *)
Definition add (a : arch) (x y : Z) : Z := wrap a (x + y).
Definition neg (a : arch) (x : Z) : Z := wrap a (- x).

End GoInt.

(** ** [strconv.Itoa] *)

Module Strconv.

(** The byte of a decimal digit, ["0123456789"[d]]. *)
Definition digit (d : Z) : ascii := ascii_of_N (Z.to_N (48 + d)).

(** The digit loop of [formatBits] in base 10: the digits of [u] are
    written in front of [buf], least significant first, until the
    quotient has a single digit. *)
Fixpoint formatBits (fuel : nat) (u : Z) (buf : string) : string :=
  match fuel with
  | O => String (digit (u mod 10)) buf
  | S k =>
      if u <? 10 then String (digit u) buf
      else formatBits k (u / 10) (String (digit (u mod 10)) buf)
  end.

(** One round per binary digit is more than the loop ever needs. *)
Definition formatUint (u : Z) : string :=
  formatBits (Z.to_nat (Z.log2 u)) u "".

(** [strconv.Itoa(i)], which is [FormatInt(int64(i), 10)]: the digits of
    the magnitude, with a leading minus sign when [i] is negative. *)
Definition Itoa (i : Z) : string :=
  if i <? 0 then String "-" (formatUint (- i)) else formatUint i.

(** Reading a decimal string back, used to state what [Itoa] prints. *)
Definition is_digit (c : ascii) : bool :=
  let n := N_of_ascii c in ((48 <=? n) && (n <=? 57))%N.

Definition digit_val (c : ascii) : Z := Z.of_N (N_of_ascii c) - 48.

Fixpoint all_digits (s : string) : bool :=
  match s with
  | EmptyString => true
  | String c s' => is_digit c && all_digits s'
  end.

Fixpoint value_from (acc : Z) (s : string) : Z :=
  match s with
  | EmptyString => acc
  | String c s' => value_from (10 * acc + digit_val c) s'
  end.

Definition value (s : string) : Z := value_from 0 s.

(** A numeral: one digit at least and nothing but digits. *)
Definition numeral (s : string) : bool :=
  match s with
  | EmptyString => false
  | _ => all_digits s
  end.

(** A numeral of two digits or more that starts with a zero. *)
Definition leading_zero (s : string) : bool :=
  match s with
  | String c (String _ _) => (c =? "0")%char
  | _ => false
  end.

(** The canonical numeral of a value: no leading zero, ["0"] itself
    apart. *)
Definition canonical (s : string) : bool :=
  numeral s && negb (leading_zero s).

Definition first_nonzero (s : string) : bool :=
  match s with
  | String c _ => negb (c =? "0")%char
  | EmptyString => false
  end.

End Strconv.

(** ** [base64.StdEncoding.EncodeToString] *)

Module Base64.

(** The standard alphabet of RFC 4648. *)
Definition encodeStd : string :=
  "ABCDEFGHIJKLMNOPQRSTUVWXYZabcdefghijklmnopqrstuvwxyz0123456789+/".

Definition StdPadding : ascii := "="%char.

(** [enc.encode[i]] *)
Definition encode (i : Z) : ascii :=
  match String.get (Z.to_nat i) encodeStd with
  | Some c => c
  | None => StdPadding
  end.

Definition uint_of_byte (b : byte) : Z := Z.of_N (Byte.to_N b).

(** [Encode]: three source bytes become four characters; a last block of
    one or two bytes is padded with ['=']. *)
Fixpoint EncodeToString (src : list byte) : string :=
  match src with
  | [] => ""
  | [b0] =>
      let val := Z.shiftl (uint_of_byte b0) 16 in
      String (encode (Z.land (Z.shiftr val 18) 63))
        (String (encode (Z.land (Z.shiftr val 12) 63))
           (String StdPadding (String StdPadding "")))
  | [b0; b1] =>
      let val := Z.lor (Z.shiftl (uint_of_byte b0) 16)
                       (Z.shiftl (uint_of_byte b1) 8) in
      String (encode (Z.land (Z.shiftr val 18) 63))
        (String (encode (Z.land (Z.shiftr val 12) 63))
           (String (encode (Z.land (Z.shiftr val 6) 63))
              (String StdPadding "")))
  | b0 :: b1 :: b2 :: rest =>
      let val := Z.lor (Z.lor (Z.shiftl (uint_of_byte b0) 16)
                              (Z.shiftl (uint_of_byte b1) 8))
                       (uint_of_byte b2) in
      String (encode (Z.land (Z.shiftr val 18) 63))
        (String (encode (Z.land (Z.shiftr val 12) 63))
           (String (encode (Z.land (Z.shiftr val 6) 63))
              (String (encode (Z.land val 63))
                 (EncodeToString rest))))
  end.

(** Reading base64 back, used to state what [EncodeToString] prints:
    the place of a character in the alphabet, the 24 bits of a group of
    four characters, and its bytes from the most significant down. *)
Fixpoint index_from (i : Z) (c : ascii) (s : string) : option Z :=
  match s with
  | EmptyString => None
  | String d s' => if (c =? d)%char then Some i else index_from (i + 1) c s'
  end.

Definition decode (c : ascii) : option Z := index_from 0 c encodeStd.

Definition group (s0 s1 s2 s3 : Z) : Z :=
  s0 * 262144 + s1 * 4096 + s2 * 64 + s3.

Definition byte_at (v k : Z) : option byte :=
  Byte.of_N (Z.to_N ((v / 256 ^ k) mod 256)).

Fixpoint DecodeString (s : string) : option (list byte) :=
  match s with
  | EmptyString => Some []
  | String c0 (String c1 (String c2 (String c3 rest))) =>
      match decode c0, decode c1 with
      | Some s0, Some s1 =>
          if (c2 =? StdPadding)%char then
            if (c3 =? StdPadding)%char && (rest =? "")%string then
              match byte_at (group s0 s1 0 0) 2 with
              | Some b0 => Some [b0]
              | None => None
              end
            else None
          else
            match decode c2 with
            | None => None
            | Some s2 =>
                if (c3 =? StdPadding)%char then
                  if (rest =? "")%string then
                    match byte_at (group s0 s1 s2 0) 2,
                          byte_at (group s0 s1 s2 0) 1 with
                    | Some b0, Some b1 => Some [b0; b1]
                    | _, _ => None
                    end
                  else None
                else
                  match decode c3, DecodeString rest with
                  | Some s3, Some l =>
                      let v := group s0 s1 s2 s3 in
                      match byte_at v 2, byte_at v 1, byte_at v 0 with
                      | Some b0, Some b1, Some b2 => Some (b0 :: b1 :: b2 :: l)
                      | _, _, _ => None
                      end
                  | _, _ => None
                  end
            end
      | _, _ => None
      end
  | _ => None
  end.

End Base64.

(** ** The package [escapes] *)

Import GoInt.

(** [ConsoleDim]: the dimensions of a console in rows and columns. *)
Record ConsoleDim : Set := { Rows : Z; Cols : Z }.

(** Common fragments of escape sequences. *)
Definition Esc : string := String "027" "[".
Definition Osc : string := String "027" "]".
Definition Bel : string := String "007" "".

(** Common ANSI escape sequences. *)
Definition CursorUp       := Esc ++ "A".
Definition CursorDown     := Esc ++ "B".
Definition CursorForward  := Esc ++ "C".
Definition CursorBackward := Esc ++ "D".
Definition CursorNextLine := Esc ++ "E".
Definition CursorPrevLine := Esc ++ "F".
Definition CursorLeft     := Esc ++ "G".
Definition CursorTop      := Esc ++ "d".
Definition CursorTopLeft  := Esc ++ "H".
Definition CursorSave     := Esc ++ "s".
Definition CursorRestore  := Esc ++ "u".

Definition CursorBlinkEnable  := Esc ++ "?12h".
Definition CursorBlinkDisable := Esc ++ "?12I".
Definition CursorShow         := Esc ++ "?25h".
Definition CursorHide         := Esc ++ "?25l".

Definition ScrollUp   := Esc ++ "S".
Definition ScrollDown := Esc ++ "T".

Definition TextInsertChar := Esc ++ "@".
Definition TextDeleteChar := Esc ++ "P".
Definition TextEraseChar  := Esc ++ "X".
Definition TextInsertLine := Esc ++ "L".
Definition TextDeleteLine := Esc ++ "M".

Definition EraseRight  := Esc ++ "K".
Definition EraseLeft   := Esc ++ "1K".
Definition EraseLine   := Esc ++ "2K".
Definition EraseDown   := Esc ++ "J".
Definition EraseUp     := Esc ++ "1J".
Definition EraseScreen := Esc ++ "2J".

Definition TextColorBlack         := Esc ++ "30m".
Definition TextColorRed           := Esc ++ "31m".
Definition TextColorGreen         := Esc ++ "32m".
Definition TextColorYellow        := Esc ++ "33m".
Definition TextColorBlue          := Esc ++ "34m".
Definition TextColorMagenta       := Esc ++ "35m".
Definition TextColorCyan          := Esc ++ "36m".
Definition TextColorWhite         := Esc ++ "37m".
Definition TextColorBrightBlack   := Esc ++ "30;1m".
Definition TextColorBrightRed     := Esc ++ "31;1m".
Definition TextColorBrightGreen   := Esc ++ "32;1m".
Definition TextColorBrightYellow  := Esc ++ "33;1m".
Definition TextColorBrightBlue    := Esc ++ "34;1m".
Definition TextColorBrightMagenta := Esc ++ "35;1m".
Definition TextColorBrightCyan    := Esc ++ "36;1m".
Definition TextColorBrightWhite   := Esc ++ "37;1m".

Definition BackgroundColorBlack         := Esc ++ "40m".
Definition BackgroundColorRed           := Esc ++ "41m".
Definition BackgroundColorGreen         := Esc ++ "42m".
Definition BackgroundColorYellow        := Esc ++ "43m".
Definition BackgroundColorBlue          := Esc ++ "44m".
Definition BackgroundColorMagenta       := Esc ++ "45m".
Definition BackgroundColorCyan          := Esc ++ "46m".
Definition BackgroundColorWhite         := Esc ++ "47m".
Definition BackgroundColorBrightBlack   := Esc ++ "40;1m".
Definition BackgroundColorBrightRed     := Esc ++ "41;1m".
Definition BackgroundColorBrightGreen   := Esc ++ "42;1m".
Definition BackgroundColorBrightYellow  := Esc ++ "43;1m".
Definition BackgroundColorBrightBlue    := Esc ++ "44;1m".
Definition BackgroundColorBrightMagenta := Esc ++ "45;1m".
Definition BackgroundColorBrightCyan    := Esc ++ "46;1m".
Definition BackgroundColorBrightWhite   := Esc ++ "47;1m".

Definition ColorReset := Esc ++ "0m".

Definition ClearScreen : string := String "027" "c".

(** The constants of the table that are written [Esc + suffix]: all of
    them but [ClearScreen]. *)
Definition EscConstants : list string :=
  [ CursorUp; CursorDown; CursorForward; CursorBackward; CursorNextLine;
    CursorPrevLine; CursorLeft; CursorTop; CursorTopLeft; CursorSave;
    CursorRestore; CursorBlinkEnable; CursorBlinkDisable; CursorShow;
    CursorHide; ScrollUp; ScrollDown; TextInsertChar; TextDeleteChar;
    TextEraseChar; TextInsertLine; TextDeleteLine; EraseRight; EraseLeft;
    EraseLine; EraseDown; EraseUp; EraseScreen;
    TextColorBlack; TextColorRed; TextColorGreen; TextColorYellow;
    TextColorBlue; TextColorMagenta; TextColorCyan; TextColorWhite;
    TextColorBrightBlack; TextColorBrightRed; TextColorBrightGreen;
    TextColorBrightYellow; TextColorBrightBlue; TextColorBrightMagenta;
    TextColorBrightCyan; TextColorBrightWhite;
    BackgroundColorBlack; BackgroundColorRed; BackgroundColorGreen;
    BackgroundColorYellow; BackgroundColorBlue; BackgroundColorMagenta;
    BackgroundColorCyan; BackgroundColorWhite;
    BackgroundColorBrightBlack; BackgroundColorBrightRed;
    BackgroundColorBrightGreen; BackgroundColorBrightYellow;
    BackgroundColorBrightBlue; BackgroundColorBrightMagenta;
    BackgroundColorBrightCyan; BackgroundColorBrightWhite; ColorReset ].

Section Functions.

(** The platform the package is compiled for. *)
Variable a : arch.

Local Notation "x +' y" := (GoInt.add a x y) (at level 50, left associativity).
Local Notation "-' x" := (GoInt.neg a x) (at level 35, right associativity).

Definition CursorPosX (x : Z) : string :=
  (Esc ++ Strconv.Itoa (x +' 1)) ++ "G".

Definition CursorPosY (y : Z) : string :=
  (Esc ++ Strconv.Itoa (y +' 1)) ++ "d".

Definition CursorPos (x y : Z) : string :=
  (((Esc ++ Strconv.Itoa (y +' 1)) ++ ";") ++ Strconv.Itoa (x +' 1)) ++ "H".

(** [var s string] starts empty; the first statement assigns it, the
    second appends to it. *)
Definition CursorMove (x y : Z) : string :=
  let s := "" in
  let s :=
    if x <? 0 then (Esc ++ Strconv.Itoa (-' x)) ++ "D"
    else if x >? 0 then (Esc ++ Strconv.Itoa x) ++ "C"
    else s in
  let s :=
    if y <? 0 then s ++ ((Esc ++ Strconv.Itoa (-' y)) ++ "A")
    else if y >? 0 then s ++ ((Esc ++ Strconv.Itoa y) ++ "B")
    else s in
  s.

Definition Scroll (n : Z) : string :=
  if n >? 0 then (Esc ++ Strconv.Itoa n) ++ "S"
  else if n <? 0 then (Esc ++ Strconv.Itoa (-' n)) ++ "T"
  else "".

Definition TextInsertChars (n : Z) : string := (Esc ++ Strconv.Itoa n) ++ "@".
Definition TextDeleteChars (n : Z) : string := (Esc ++ Strconv.Itoa n) ++ "P".
Definition TextEraseChars  (n : Z) : string := (Esc ++ Strconv.Itoa n) ++ "X".
Definition TextInsertLines (n : Z) : string := (Esc ++ Strconv.Itoa n) ++ "L".
Definition TextDeleteLines (n : Z) : string := (Esc ++ Strconv.Itoa n) ++ "M".

Definition Link (url text : string) : string :=
  ((((((Osc ++ "8;;") ++ url) ++ Bel) ++ text) ++ Osc) ++ "8;;") ++ Bel.

Definition ImageWidthHeight (img : list byte) (height width : Z)
    (preserveAspectRatio : bool) : string :=
  let s := Osc ++ "1337;File=inline=1" in
  let s := if height >? 0 then s ++ (";width=" ++ Strconv.Itoa height) else s in
  let s := if width >? 0 then s ++ (";height=" ++ Strconv.Itoa width) else s in
  let s := if negb preserveAspectRatio then s ++ ";preserveAspectRatio=0" else s in
  ((s ++ ":") ++ Base64.EncodeToString img) ++ Bel.

Definition Image (img : list byte) : string :=
  ImageWidthHeight img 0 0 true.

Definition SetCwd (dir : string) : string :=
  ((Osc ++ "50;CurrentDir=") ++ dir) ++ Bel.

End Functions.

(** ** What the statements below speak about *)

(** The horizontal and the vertical component of a relative move, by the
    sign of the offset. *)
Definition horizontal (a : arch) (dx : Z) : string :=
  match (dx ?= 0)%Z with
  | Lt => Esc ++ Strconv.Itoa (GoInt.neg a dx) ++ "D"
  | Gt => Esc ++ Strconv.Itoa dx ++ "C"
  | Eq => ""
  end.

Definition vertical (a : arch) (dy : Z) : string :=
  match (dy ?= 0)%Z with
  | Lt => Esc ++ Strconv.Itoa (GoInt.neg a dy) ++ "A"
  | Gt => Esc ++ Strconv.Itoa dy ++ "B"
  | Eq => ""
  end.

(** Does a string hold a minus sign? *)
Fixpoint has_minus (s : string) : bool :=
  match s with
  | EmptyString => false
  | String c s' => (c =? "-")%char || has_minus s'
  end.

(** The last byte of a string. *)
Fixpoint final_byte (s : string) : option ascii :=
  match s with
  | EmptyString => None
  | String c EmptyString => Some c
  | String _ s' => final_byte s'
  end.

Definition is_upper (c : ascii) : bool :=
  let n := N_of_ascii c in ((65 <=? n) && (n <=? 90))%N.

Definition is_lower (c : ascii) : bool :=
  let n := N_of_ascii c in ((97 <=? n) && (n <=? 122))%N.

(** Does a string hold a byte of a given kind? *)
Fixpoint any (P : ascii -> bool) (s : string) : bool :=
  match s with
  | EmptyString => false
  | String c s' => P c || any P s'
  end.

Definition contains (c : ascii) (s : string) : bool := any (Ascii.eqb c) s.

(** A sequence of the constant table with parameters put between its
    two-byte introducer and the rest. *)
Definition with_param (p : string) (c : string) : string :=
  match c with
  | String e (String b rest) => String e (String b (p ++ rest))
  | _ => c
  end.

(** The size an [int] argument of [ImageWidthHeight] stands for: nothing
    below one is printed. *)
Definition shown (n : Z) : Z := Z.max n 0.

(** What [CursorMove] and [Scroll] print for one offset: nothing at zero,
    else the prefix, a number and a letter chosen by the sign. *)
Definition component (a : arch) (lneg lpos : ascii) (d : Z) : string :=
  match (d ?= 0)%Z with
  | Lt => Esc ++ Strconv.Itoa (GoInt.neg a d) ++ String lneg ""
  | Gt => Esc ++ Strconv.Itoa d ++ String lpos ""
  | Eq => ""
  end.

(** The bytes base64 text is made of: the alphabet and the padding. *)
Definition b64_char (c : ascii) : bool :=
  contains c Base64.encodeStd || (c =? Base64.StdPadding)%char.

(** The optional fields of an inline image, in the order they are
    written. *)
Definition width_field (height : Z) : string :=
  if (0 <? height)%Z then ";width=" ++ Strconv.Itoa height else "".

Definition height_field (width : Z) : string :=
  if (0 <? width)%Z then ";height=" ++ Strconv.Itoa width else "".

Definition ratio_field (p : bool) : string :=
  if p then "" else ";preserveAspectRatio=0".

(** Are the strings of a list different from one another? *)
Fixpoint distinct (l : list string) : bool :=
  match l with
  | [] => true
  | s :: l' => negb (existsb (String.eqb s) l') && distinct l'
  end.

(** What may follow a number in the fields of an inline image: nothing,
    or the semicolon of the next field. *)
Definition sep_start (r : string) : Prop :=
  r = ""%string \/ exists t, r = String ";" t.

(** * Properties *)

(** ** Strings *)

Lemma append_assoc (s t u : string) : ((s ++ t) ++ u = s ++ (t ++ u))%string.
Proof.
  induction s as [|c s IH]; simpl; [reflexivity|].
  now rewrite IH.
Qed.

Lemma append_nil_r (s : string) : (s ++ "")%string = s.
Proof.
  induction s as [|c s IH]; simpl; [reflexivity|].
  now rewrite IH.
Qed.

Lemma append_length (s t : string) :
  String.length (s ++ t) = (String.length s + String.length t)%nat.
Proof.
  induction s as [|c s IH]; simpl; [reflexivity|].
  now rewrite IH.
Qed.

Lemma has_minus_app (s t : string) :
  has_minus (s ++ t) = has_minus s || has_minus t.
Proof.
  induction s as [|c s IH]; simpl; [reflexivity|].
  now rewrite IH, orb_assoc.
Qed.

(** ** Go's [int] *)

Lemma MinInt_is_int (a : arch) : is_int a (MinInt a).
Proof. destruct a; unfold is_int, MinInt, MaxInt; simpl; lia. Qed.

Lemma MaxInt_is_int (a : arch) : is_int a (MaxInt a).
Proof. destruct a; unfold is_int, MinInt, MaxInt; simpl; lia. Qed.

Lemma is_intb_spec (a : arch) (x : Z) : is_intb a x = true <-> is_int a x.
Proof. unfold is_intb, is_int. rewrite andb_true_iff, !Z.leb_le. tauto. Qed.

Lemma wrap_is_int (a : arch) (x : Z) : is_int a (wrap a x).
Proof.
  unfold is_int, wrap, MinInt, MaxInt.
  destruct a; simpl intSize; simpl Z.sub;
    match goal with
    | |- context [?u mod ?m] =>
        pose proof (Z.mod_pos_bound u m ltac:(reflexivity))
    end;
    change (2 ^ 64) with (2 * 2 ^ 63) in *;
    change (2 ^ 32) with (2 * 2 ^ 31) in *; lia.
Qed.

Lemma wrap_small (a : arch) (x : Z) : is_int a x -> wrap a x = x.
Proof.
  unfold is_int, wrap, MinInt, MaxInt.
  destruct a; simpl intSize; simpl Z.sub; intros H;
    rewrite Z.mod_small; lia.
Qed.

(** [x + 1] is the successor unless [x] is the largest [int], where it
    wraps to the smallest. *)
Lemma add_1_small (a : arch) (x : Z) :
  is_int a x -> x < MaxInt a -> add a x 1 = x + 1.
Proof.
  intros H Hlt. unfold add. apply wrap_small.
  unfold is_int in *. lia.
Qed.

Lemma add_1_MaxInt (a : arch) : add a (MaxInt a) 1 = MinInt a.
Proof. destruct a; reflexivity. Qed.

(** [-x] is the opposite unless [x] is the smallest [int], which is its
    own negation. *)
Lemma neg_small (a : arch) (x : Z) :
  is_int a x -> MinInt a < x -> neg a x = - x.
Proof.
  intros H Hlt. unfold neg. apply wrap_small.
  unfold is_int, MinInt, MaxInt in *. lia.
Qed.

Lemma neg_MinInt (a : arch) : neg a (MinInt a) = MinInt a.
Proof. destruct a; reflexivity. Qed.

Lemma add_1_cases (a : arch) (x : Z) :
  is_int a x ->
  add a x 1 = if x =? MaxInt a then MinInt a else x + 1.
Proof.
  intros H. destruct (Z.eqb_spec x (MaxInt a)) as [-> | Hne].
  - apply add_1_MaxInt.
  - apply add_1_small; [assumption|]. unfold is_int in H. lia.
Qed.

Lemma neg_cases (a : arch) (x : Z) :
  is_int a x ->
  neg a x = if x =? MinInt a then MinInt a else - x.
Proof.
  intros H. destruct (Z.eqb_spec x (MinInt a)) as [-> | Hne].
  - apply neg_MinInt.
  - apply neg_small; [assumption|]. unfold is_int in H. lia.
Qed.

(** ** [strconv.Itoa] *)

Module StrconvFacts.
Import Strconv.

Lemma digit_cases (d : Z) :
  0 <= d < 10 ->
  d = 0 \/ d = 1 \/ d = 2 \/ d = 3 \/ d = 4 \/
  d = 5 \/ d = 6 \/ d = 7 \/ d = 8 \/ d = 9.
Proof. lia. Qed.

Ltac each_digit d H :=
  let C := fresh in
  pose proof (digit_cases d H) as C;
  repeat (destruct C as [-> | C]; [reflexivity|]);
  subst d; reflexivity.

Lemma digit_is_digit (d : Z) : 0 <= d < 10 -> is_digit (digit d) = true.
Proof. intros H. each_digit d H. Qed.

Lemma digit_val_digit (d : Z) : 0 <= d < 10 -> digit_val (digit d) = d.
Proof. intros H. each_digit d H. Qed.

Lemma digit_zero (d : Z) :
  0 <= d < 10 -> (digit d =? "0")%char = (d =? 0).
Proof. intros H. each_digit d H. Qed.

Lemma is_digit_val (c : ascii) : is_digit c = true -> 0 <= digit_val c <= 9.
Proof.
  unfold is_digit, digit_val. cbv zeta.
  rewrite andb_true_iff, !N.leb_le. lia.
Qed.

Lemma is_digit_not_minus (c : ascii) :
  is_digit c = true -> (c =? "-")%char = false.
Proof.
  intros H. destruct (Ascii.eqb_spec c "-") as [-> | _]; [discriminate | reflexivity].
Qed.

Lemma digit_val_zero (c : ascii) : digit_val c = 0 -> c = "0"%char.
Proof.
  unfold digit_val. intros H.
  rewrite <- (ascii_N_embedding c).
  replace (N_of_ascii c) with 48%N by lia. reflexivity.
Qed.

Lemma all_digits_app (s t : string) :
  all_digits (s ++ t) = all_digits s && all_digits t.
Proof.
  induction s as [|c s IH]; simpl; [reflexivity|].
  now rewrite IH, andb_assoc.
Qed.

Lemma all_digits_no_minus (s : string) :
  all_digits s = true -> has_minus s = false.
Proof.
  induction s as [|c s IH]; simpl; [reflexivity|].
  rewrite andb_true_iff. intros [Hc Hs].
  now rewrite (is_digit_not_minus c Hc), IH.
Qed.

Lemma value_from_app (acc : Z) (s t : string) :
  value_from acc (s ++ t) = value_from (value_from acc s) t.
Proof.
  revert acc. induction s as [|c s IH]; intros acc; simpl; [reflexivity|].
  apply IH.
Qed.

Lemma value_snoc (s : string) (c : ascii) :
  value (s ++ String c "") = 10 * value s + digit_val c.
Proof. unfold value. now rewrite value_from_app. Qed.

Lemma first_nonzero_app (s t : string) :
  first_nonzero s = true -> first_nonzero (s ++ t) = true.
Proof. destruct s; simpl; [discriminate | trivial]. Qed.

(** The buffer is only ever extended at the front. *)
Lemma formatBits_buf (fuel : nat) (u : Z) (buf : string) :
  formatBits fuel u buf = (formatBits fuel u "" ++ buf)%string.
Proof.
  revert u buf. induction fuel as [|k IH]; intros u buf; simpl.
  - reflexivity.
  - destruct (u <? 10); [reflexivity|].
    rewrite IH, (IH _ (String _ "")), append_assoc. reflexivity.
Qed.

Lemma formatBits_step (k : nat) (u : Z) :
  10 <= u ->
  formatBits (S k) u "" =
  (formatBits k (u / 10) "" ++ String (digit (u mod 10)) "")%string.
Proof.
  intros H. simpl.
  destruct (Z.ltb_spec u 10); [lia|].
  apply formatBits_buf.
Qed.

(** With a round per decimal digit the loop prints [u]: digits only,
    worth [u], and starting with a digit other than zero when [u] is
    positive. *)
Lemma formatBits_spec (fuel : nat) (u : Z) :
  0 <= u < 10 ^ (Z.of_nat fuel + 1) ->
  all_digits (formatBits fuel u "") = true /\
  value (formatBits fuel u "") = u /\
  (0 < u -> first_nonzero (formatBits fuel u "") = true).
Proof.
  revert u. induction fuel as [|k IH]; intros u Hu.
  - change (10 ^ (Z.of_nat 0 + 1)) with 10 in Hu.
    simpl formatBits. rewrite Z.mod_small by lia.
    unfold value. simpl.
    rewrite digit_is_digit, digit_val_digit, digit_zero by lia.
    repeat split. intros Hpos.
    destruct (Z.eqb_spec u 0); [lia | reflexivity].
  - destruct (Z.lt_ge_cases u 10) as [Hlt | Hge].
    + simpl formatBits. destruct (Z.ltb_spec u 10); [|lia].
      unfold value. simpl.
      rewrite digit_is_digit, digit_val_digit, digit_zero by lia.
      repeat split. intros Hpos.
      destruct (Z.eqb_spec u 0); [lia | reflexivity].
    + rewrite formatBits_step by assumption.
      assert (Hq : 0 <= u / 10 < 10 ^ (Z.of_nat k + 1)).
      { split; [apply Z.div_pos; lia|].
        apply Z.div_lt_upper_bound; [lia|].
        replace (Z.of_nat (S k) + 1) with (Z.succ (Z.of_nat k + 1)) in Hu by lia.
        rewrite Z.pow_succ_r in Hu by lia. lia. }
      destruct (IH _ Hq) as (Hd & Hv & Hf).
      pose proof (Z.mod_pos_bound u 10 ltac:(lia)) as Hm.
      rewrite all_digits_app, value_snoc, Hd, Hv. simpl all_digits.
      rewrite digit_is_digit, digit_val_digit by lia.
      repeat split.
      * rewrite (Z.div_mod u 10) at 3 by lia. reflexivity.
      * intros _. apply first_nonzero_app, Hf.
        apply Z.div_str_pos. lia.
Qed.

Lemma formatBits_nonempty (fuel : nat) (u : Z) (buf : string) :
  formatBits fuel u buf <> ""%string.
Proof.
  revert u buf. induction fuel as [|k IH]; intros u buf; simpl.
  - discriminate.
  - destruct (u <? 10); [discriminate | apply IH].
Qed.

(** The fuel [formatUint] gives the loop is enough. *)
Lemma log2_fuel (u : Z) :
  0 <= u -> 0 <= u < 10 ^ (Z.of_nat (Z.to_nat (Z.log2 u)) + 1).
Proof.
  intros H. split; [assumption|].
  rewrite Z2Nat.id by apply Z.log2_nonneg.
  destruct (Z.eq_dec u 0) as [-> | Hne]; [reflexivity|].
  destruct (Z.log2_spec u ltac:(lia)) as [_ Hlt].
  apply Z.lt_le_trans with (1 := Hlt).
  unfold Z.succ. apply Z.pow_le_mono_l.
  pose proof (Z.log2_nonneg u). lia.
Qed.

Lemma formatUint_spec (u : Z) :
  0 <= u ->
  canonical (formatUint u) = true /\ value (formatUint u) = u.
Proof.
  intros H. unfold formatUint.
  destruct (formatBits_spec _ _ (log2_fuel u H)) as (Hd & Hv & Hf).
  split; [|assumption].
  pose proof (formatBits_nonempty (Z.to_nat (Z.log2 u)) u "") as Hne.
  unfold canonical, numeral, leading_zero.
  destruct (formatBits (Z.to_nat (Z.log2 u)) u "") as [|c [|c' s]] eqn:E.
  - contradiction.
  - rewrite Hd. reflexivity.
  - rewrite Hd. simpl.
    destruct (Z.eq_dec u 0) as [-> | Hpos].
    + discriminate E.
    + specialize (Hf ltac:(lia)). simpl in Hf. exact Hf.
Qed.

(** [Itoa] of a non-negative number is its canonical numeral. *)
Lemma Itoa_nonneg (n : Z) :
  0 <= n ->
  canonical (Itoa n) = true /\ value (Itoa n) = n /\ has_minus (Itoa n) = false.
Proof.
  intros H. unfold Itoa. destruct (Z.ltb_spec n 0); [lia|].
  destruct (formatUint_spec n H) as [Hc Hv].
  repeat split; try assumption.
  apply all_digits_no_minus.
  unfold canonical, numeral in Hc. apply andb_true_iff in Hc.
  destruct Hc as [Hc _]. destruct (formatUint n); [discriminate | exact Hc].
Qed.

(** [Itoa] of a negative number is a minus sign and the numeral of its
    magnitude. *)
Lemma Itoa_neg (n : Z) : n < 0 -> Itoa n = String "-" (Itoa (- n)).
Proof.
  intros H. unfold Itoa.
  destruct (Z.ltb_spec n 0); [|lia].
  destruct (Z.ltb_spec (- n) 0); [lia | reflexivity].
Qed.

Lemma Itoa_has_minus (n : Z) : has_minus (Itoa n) = (n <? 0).
Proof.
  destruct (Z.ltb_spec n 0) as [Hneg | Hpos].
  - rewrite Itoa_neg by assumption. reflexivity.
  - apply Itoa_nonneg. assumption.
Qed.

(** The value of a string of digits, by its length. *)
Lemma value_from_bounds (s : string) (acc : Z) :
  all_digits s = true -> 0 <= acc ->
  acc * 10 ^ Z.of_nat (String.length s) <= value_from acc s
    < (acc + 1) * 10 ^ Z.of_nat (String.length s).
Proof.
  revert acc. induction s as [|c s IH]; intros acc Hd Hacc.
  - simpl. lia.
  - simpl in Hd. apply andb_true_iff in Hd. destruct Hd as [Hc Hs].
    pose proof (is_digit_val c Hc) as Hv.
    specialize (IH (10 * acc + digit_val c) Hs ltac:(lia)).
    cbn [value_from String.length].
    rewrite Nat2Z.inj_succ, Z.pow_succ_r by lia.
    pose proof (Z.pow_pos_nonneg 10 (Z.of_nat (String.length s))
                  ltac:(lia) ltac:(lia)).
    nia.
Qed.

(** No numeral of the same value is shorter than the canonical one. *)
Lemma canonical_shortest (s t : string) :
  canonical s = true -> numeral t = true -> value t = value s ->
  (String.length s <= String.length t)%nat.
Proof.
  unfold canonical. rewrite andb_true_iff, negb_true_iff.
  intros [Hs Hz] Ht Hv.
  destruct s as [|c s]; [discriminate|].
  destruct t as [|d t]; [discriminate|].
  simpl in Hs, Ht. destruct s as [|c' s]; [simpl; lia|].
  cbn [leading_zero] in Hz.
  apply andb_true_iff in Hs. destruct Hs as [Hc Hs].
  assert (1 <= digit_val c) as Hlead.
  { pose proof (is_digit_val c Hc).
    destruct (Z.eq_dec (digit_val c) 0) as [E | E]; [|lia].
    apply digit_val_zero in E. subst c. discriminate. }
  pose proof (value_from_bounds (String c' s) (digit_val c) Hs ltac:(lia)) as Bs.
  pose proof (value_from_bounds (String d t) 0 Ht ltac:(lia)) as Bt.
  unfold value in Hv. change (value_from 0 (String c (String c' s)))
    with (value_from (10 * 0 + digit_val c) (String c' s)) in Hv.
  rewrite Z.mul_0_r, Z.add_0_l in Hv.
  assert (10 ^ Z.of_nat (String.length (String c' s))
          < 10 ^ Z.of_nat (String.length (String d t))) as Hpow.
  { pose proof (Z.pow_pos_nonneg 10 (Z.of_nat (String.length (String c' s)))
                  ltac:(lia) ltac:(lia)).
    nia. }
  apply Z.pow_lt_mono_r_iff in Hpow; [|lia|lia].
  cbn [String.length] in *. lia.
Qed.

(** [Itoa] prints the shortest decimal representation. *)
Lemma Itoa_shortest (n : Z) (t : string) :
  0 <= n -> numeral t = true -> value t = n ->
  (String.length (Itoa n) <= String.length t)%nat.
Proof.
  intros Hn Ht Hv. destruct (Itoa_nonneg n Hn) as (Hc & Hval & _).
  apply canonical_shortest; [assumption | assumption | congruence].
Qed.

End StrconvFacts.

(** ** [base64.StdEncoding] *)

Module Base64Facts.
Import Base64.

(** The test vectors of RFC 4648, section 10. *)
Example rfc4648_vectors :
  EncodeToString [] = "" /\
  EncodeToString [x66] = "Zg==" /\
  EncodeToString [x66; x6f] = "Zm8=" /\
  EncodeToString [x66; x6f; x6f] = "Zm9v" /\
  EncodeToString [x66; x6f; x6f; x62] = "Zm9vYg==" /\
  EncodeToString [x66; x6f; x6f; x62; x61] = "Zm9vYmE=" /\
  EncodeToString [x66; x6f; x6f; x62; x61; x72] = "Zm9vYmFy".
Proof. repeat split. Qed.

(** Lists three elements at a time. *)
Lemma list_ind3 {A : Type} (P : list A -> Prop) :
  P [] -> (forall x, P [x]) -> (forall x y, P [x; y]) ->
  (forall x y z l, P l -> P (x :: y :: z :: l)) ->
  forall l, P l.
Proof.
  intros H0 H1 H2 H3.
  fix IH 1. intros [|x [|y [|z l]]].
  - exact H0.
  - apply H1.
  - apply H2.
  - apply H3, IH.
Qed.

Lemma uint_of_byte_range (b : byte) : 0 <= uint_of_byte b < 256.
Proof.
  unfold uint_of_byte. pose proof (Byte.to_N_bounded b). lia.
Qed.

Lemma byte_of_uint (b : byte) :
  Byte.of_N (Z.to_N (uint_of_byte b)) = Some b.
Proof. unfold uint_of_byte. rewrite N2Z.id. apply Byte.of_to_N. Qed.

(** [hi<<k | lo] is a sum when [lo] fits in the [k] low bits. *)
Lemma lor_shiftl_add (hi lo k : Z) :
  0 <= k -> 0 <= lo < 2 ^ k ->
  Z.lor (Z.shiftl hi k) lo = hi * 2 ^ k + lo.
Proof.
  intros Hk Hlo.
  assert (Hdisj : Z.land (Z.shiftl hi k) lo = 0).
  { apply Z.bits_inj'. intros n Hn.
    rewrite Z.land_spec, Z.bits_0.
    destruct (Z.lt_ge_cases n k) as [Hlt | Hge].
    - now rewrite Z.shiftl_spec_low.
    - rewrite <- (Z.mod_small lo (2 ^ k)) by assumption.
      rewrite Z.mod_pow2_bits_high by lia. apply andb_false_r. }
  rewrite <- Z.lxor_lor by assumption.
  rewrite <- Z.add_nocarry_lxor by assumption.
  now rewrite Z.shiftl_mul_pow2.
Qed.

(** The 24 bits of a block, as a number. *)
Lemma val3 (b0 b1 b2 : byte) :
  Z.lor (Z.lor (Z.shiftl (uint_of_byte b0) 16) (Z.shiftl (uint_of_byte b1) 8))
        (uint_of_byte b2)
  = uint_of_byte b0 * 65536 + uint_of_byte b1 * 256 + uint_of_byte b2.
Proof.
  pose proof (uint_of_byte_range b0). pose proof (uint_of_byte_range b1).
  pose proof (uint_of_byte_range b2).
  rewrite (Z.shiftl_mul_pow2 (uint_of_byte b1)) by lia.
  rewrite (lor_shiftl_add (uint_of_byte b0)) by (simpl; lia).
  replace (uint_of_byte b0 * 2 ^ 16 + uint_of_byte b1 * 2 ^ 8)
    with (Z.shiftl (uint_of_byte b0 * 256 + uint_of_byte b1) 8)
    by (rewrite Z.shiftl_mul_pow2 by lia; simpl; lia).
  rewrite lor_shiftl_add by (simpl; lia).
  simpl. lia.
Qed.

Lemma val2 (b0 b1 : byte) :
  Z.lor (Z.shiftl (uint_of_byte b0) 16) (Z.shiftl (uint_of_byte b1) 8)
  = uint_of_byte b0 * 65536 + uint_of_byte b1 * 256.
Proof.
  pose proof (uint_of_byte_range b0). pose proof (uint_of_byte_range b1).
  rewrite (Z.shiftl_mul_pow2 (uint_of_byte b1)) by lia.
  rewrite lor_shiftl_add by (simpl; lia).
  simpl. lia.
Qed.

Lemma val1 (b0 : byte) : Z.shiftl (uint_of_byte b0) 16 = uint_of_byte b0 * 65536.
Proof. rewrite Z.shiftl_mul_pow2 by lia. reflexivity. Qed.

(** [v>>k & 0x3F] is a base-64 digit of [v]. *)
Lemma sextet (v k : Z) :
  0 <= k -> Z.land (Z.shiftr v k) 63 = (v / 2 ^ k) mod 64.
Proof.
  intros Hk. change 63 with (Z.ones 6).
  rewrite Z.land_ones by lia. now rewrite Z.shiftr_div_pow2.
Qed.

Lemma sextet0 (v : Z) : Z.land v 63 = v mod 64.
Proof. change 63 with (Z.ones 6). now rewrite Z.land_ones by lia. Qed.

(** Every index has its own character of the alphabet, none of them the
    padding. *)
Lemma alphabet_table :
  forallb (fun n =>
             match decode (encode (Z.of_nat n)) with
             | Some j => (j =? Z.of_nat n)
             | None => false
             end && negb (encode (Z.of_nat n) =? StdPadding)%char)
          (seq 0 64) = true.
Proof. vm_compute. reflexivity. Qed.

Lemma decode_encode (i : Z) :
  0 <= i < 64 ->
  decode (encode i) = Some i /\ (encode i =? StdPadding)%char = false.
Proof.
  intros Hi. pose proof alphabet_table as T.
  rewrite forallb_forall in T. specialize (T (Z.to_nat i)).
  rewrite Z2Nat.id in T by lia.
  assert (In (Z.to_nat i) (seq 0 64)) as Hin by (apply in_seq; lia).
  apply T in Hin. apply andb_true_iff in Hin. destruct Hin as [Hd Hp].
  split.
  - destruct (decode (encode i)) as [j|]; [|discriminate].
    apply Z.eqb_eq in Hd. now subst.
  - now apply negb_true_iff.
Qed.

Lemma mod64_range (x : Z) : 0 <= x mod 64 < 64.
Proof. apply Z.mod_pos_bound. lia. Qed.

(** The bytes of a block are read back from its base-64 digits. *)
Lemma block3 (B0 B1 B2 : Z) :
  0 <= B0 < 256 -> 0 <= B1 < 256 -> 0 <= B2 < 256 ->
  let v := B0 * 65536 + B1 * 256 + B2 in
  group ((v / 2 ^ 18) mod 64) ((v / 2 ^ 12) mod 64) ((v / 2 ^ 6) mod 64)
        (v mod 64) = v /\
  (v / 256 ^ 2) mod 256 = B0 /\ (v / 256 ^ 1) mod 256 = B1 /\
  (v / 256 ^ 0) mod 256 = B2.
Proof.
  intros H0 H1 H2 v. unfold group.
  change (2 ^ 18) with 262144. change (2 ^ 12) with 4096.
  change (2 ^ 6) with 64. change (256 ^ 2) with 65536.
  change (256 ^ 1) with 256. change (256 ^ 0) with 1.
  subst v. Z.div_mod_to_equations. lia.
Qed.

Lemma block2 (B0 B1 : Z) :
  0 <= B0 < 256 -> 0 <= B1 < 256 ->
  let v := B0 * 65536 + B1 * 256 in
  let g := group ((v / 2 ^ 18) mod 64) ((v / 2 ^ 12) mod 64)
                 ((v / 2 ^ 6) mod 64) 0 in
  (g / 256 ^ 2) mod 256 = B0 /\ (g / 256 ^ 1) mod 256 = B1.
Proof.
  intros H0 H1 v g. subst g. unfold group.
  change (2 ^ 18) with 262144. change (2 ^ 12) with 4096.
  change (2 ^ 6) with 64. change (256 ^ 2) with 65536.
  change (256 ^ 1) with 256.
  subst v. Z.div_mod_to_equations. lia.
Qed.

Lemma block1 (B0 : Z) :
  0 <= B0 < 256 ->
  let v := B0 * 65536 in
  let g := group ((v / 2 ^ 18) mod 64) ((v / 2 ^ 12) mod 64) 0 0 in
  (g / 256 ^ 2) mod 256 = B0.
Proof.
  intros H0 v g. subst g. unfold group.
  change (2 ^ 18) with 262144. change (2 ^ 12) with 4096.
  change (256 ^ 2) with 65536.
  subst v. Z.div_mod_to_equations. lia.
Qed.

Ltac known_digit t :=
  let D := fresh "D" in
  let P := fresh "P" in
  destruct (decode_encode t (mod64_range _)) as [D P];
  rewrite ?D, ?P; clear D P.

(** What [EncodeToString] prints decodes to the bytes it was given. *)
Lemma DecodeString_EncodeToString (src : list byte) :
  DecodeString (EncodeToString src) = Some src.
Proof.
  induction src as [| b0 | b0 b1 | b0 b1 b2 rest IH] using list_ind3.
  - reflexivity.
  - pose proof (uint_of_byte_range b0) as R0.
    cbn [EncodeToString]. rewrite val1, !sextet by lia.
    cbn [DecodeString].
    known_digit ((uint_of_byte b0 * 65536 / 2 ^ 18) mod 64).
    known_digit ((uint_of_byte b0 * 65536 / 2 ^ 12) mod 64).
    rewrite Ascii.eqb_refl. cbn [andb String.eqb].
    unfold byte_at. rewrite (block1 _ R0), byte_of_uint. reflexivity.
  - pose proof (uint_of_byte_range b0) as R0.
    pose proof (uint_of_byte_range b1) as R1.
    cbn [EncodeToString]. rewrite val2, !sextet by lia.
    cbn [DecodeString].
    set (v := uint_of_byte b0 * 65536 + uint_of_byte b1 * 256).
    known_digit ((v / 2 ^ 18) mod 64).
    known_digit ((v / 2 ^ 12) mod 64).
    known_digit ((v / 2 ^ 6) mod 64).
    rewrite Ascii.eqb_refl. cbn [String.eqb].
    unfold byte_at. destruct (block2 _ _ R0 R1) as [E0 E1].
    fold v in E0, E1. rewrite E0, E1, !byte_of_uint. reflexivity.
  - pose proof (uint_of_byte_range b0) as R0.
    pose proof (uint_of_byte_range b1) as R1.
    pose proof (uint_of_byte_range b2) as R2.
    cbn [EncodeToString]. rewrite val3, !sextet, sextet0 by lia.
    cbn [DecodeString]. rewrite IH.
    set (v := uint_of_byte b0 * 65536 + uint_of_byte b1 * 256 + uint_of_byte b2).
    known_digit ((v / 2 ^ 18) mod 64).
    known_digit ((v / 2 ^ 12) mod 64).
    known_digit ((v / 2 ^ 6) mod 64).
    known_digit (v mod 64).
    cbv zeta. unfold byte_at.
    destruct (block3 _ _ _ R0 R1 R2) as (G & E0 & E1 & E2).
    fold v in G, E0, E1, E2.
    rewrite G, E0, E1, E2, !byte_of_uint. reflexivity.
Qed.

(** So the encoding loses nothing: different byte slices print
    differently. *)
Lemma EncodeToString_inj (src src' : list byte) :
  EncodeToString src = EncodeToString src' -> src = src'.
Proof.
  intros E. apply (f_equal DecodeString) in E.
  rewrite !DecodeString_EncodeToString in E. now injection E.
Qed.

(** Four characters for every three bytes, the last block padded. *)
Lemma EncodeToString_length (src : list byte) :
  String.length (EncodeToString src)
    = (4 * ((List.length src + 2) / 3))%nat.
Proof.
  induction src as [| b0 | b0 b1 | b0 b1 b2 rest IH] using list_ind3;
    try reflexivity.
  cbn [EncodeToString String.length List.length]. rewrite IH.
  replace (S (S (S (List.length rest))) + 2)%nat
    with (List.length rest + 2 + 1 * 3)%nat by lia.
  rewrite Nat.div_add by lia. lia.
Qed.

End Base64Facts.

(** ** The formatters of [escapes.go] *)

Import Strconv.

Ltac flatten :=
  repeat rewrite append_assoc; repeat rewrite append_nil_r; cbn [append].

(** C2: [CursorPos(x, y)] is the prefix, the decimal of [y+1], a
    semicolon, the decimal of [x+1] and ["H"], the row (from the second
    argument) before the column (from the first); [CursorPosX(x)] is the
    prefix, the decimal of [x+1] and ["G"], [CursorPosY(y)] the same with
    ["d"].  The sum is Go's [int] addition: the successor, except at the
    largest [int], where it wraps. *)
Theorem CursorPos_wire (a : arch) (x y : Z) :
  is_int a x -> is_int a y ->
  CursorPos a x y
    = (Esc ++ Itoa (add a y 1) ++ ";" ++ Itoa (add a x 1) ++ "H")%string /\
  CursorPosX a x = (Esc ++ Itoa (add a x 1) ++ "G")%string /\
  CursorPosY a y = (Esc ++ Itoa (add a y 1) ++ "d")%string /\
  add a x 1 = (if x =? MaxInt a then MinInt a else x + 1) /\
  add a y 1 = (if y =? MaxInt a then MinInt a else y + 1).
Proof.
  intros Hx Hy. unfold CursorPos, CursorPosX, CursorPosY.
  repeat split; try (now flatten); now apply add_1_cases.
Qed.

Lemma CursorPos_wire_witness :
  is_int Arch64 2 /\ is_int Arch64 3 /\
  CursorPos Arch64 2 3 = (Esc ++ "4;3H")%string /\
  CursorPosX Arch64 2 = (Esc ++ "3G")%string /\
  CursorPosY Arch64 3 = (Esc ++ "4d")%string.
Proof.
  assert (H2 : is_int Arch64 2) by (unfold is_int; cbn; lia).
  assert (H3 : is_int Arch64 3) by (unfold is_int; cbn; lia).
  destruct (CursorPos_wire Arch64 2 3 H2 H3) as (E & EX & EY & _ & _).
  split; [exact H2|]. split; [exact H3|].
  rewrite E, EX, EY. repeat split.
Defined.

(** The two statements of [CursorMove], one after the other. *)
Lemma CursorMove_split (a : arch) (x y : Z) :
  CursorMove a x y = (horizontal a x ++ vertical a y)%string.
Proof.
  unfold CursorMove, horizontal, vertical.
  rewrite !Z.gtb_ltb.
  destruct (Z.compare_spec x 0) as [-> | Hx | Hx];
    destruct (Z.compare_spec y 0) as [-> | Hy | Hy];
    repeat match goal with
      | |- context [?u <? ?v] => destruct (Z.ltb_spec u v); try lia
      end;
    now flatten.
Qed.

(** C3: [CursorMove(dx, dy)] is a horizontal component followed by a
    vertical one.  The horizontal one is empty when [dx] is zero, the
    prefix, the decimal of [-dx] and ["D"] when [dx] is negative, the
    prefix, the decimal of [dx] and ["C"] when it is positive; the vertical
    one likewise with ["A"] and ["B"]; [CursorMove(0, 0)] is empty.  The
    negation is Go's: the opposite, except at the smallest [int]. *)
Theorem CursorMove_components (a : arch) (dx dy : Z) :
  is_int a dx -> is_int a dy ->
  CursorMove a dx dy =
    ((match (dx ?= 0)%Z with
      | Lt => Esc ++ Itoa (neg a dx) ++ "D"
      | Gt => Esc ++ Itoa dx ++ "C"
      | Eq => ""
      end) ++
     (match (dy ?= 0)%Z with
      | Lt => Esc ++ Itoa (neg a dy) ++ "A"
      | Gt => Esc ++ Itoa dy ++ "B"
      | Eq => ""
      end))%string /\
  CursorMove a 0 0 = ""%string /\
  neg a dx = (if dx =? MinInt a then MinInt a else - dx) /\
  neg a dy = (if dy =? MinInt a then MinInt a else - dy).
Proof.
  intros Hx Hy. split; [apply CursorMove_split|].
  split; [reflexivity|].
  split; now apply neg_cases.
Qed.

Lemma CursorMove_components_witness :
  is_int Arch64 2 /\ is_int Arch64 (-4) /\
  CursorMove Arch64 2 (-4) = ((Esc ++ "2C") ++ (Esc ++ "4A"))%string.
Proof.
  assert (H2 : is_int Arch64 2) by (unfold is_int; cbn; lia).
  assert (H4 : is_int Arch64 (-4)) by (unfold is_int; cbn; lia).
  destruct (CursorMove_components Arch64 2 (-4) H2 H4) as (E & _).
  split; [exact H2|]. split; [exact H4|].
  rewrite E. reflexivity.
Defined.

(** The three branches of [Scroll], by the sign of [n]. *)
Lemma Scroll_cases (a : arch) (n : Z) :
  Scroll a n =
    (match (n ?= 0)%Z with
     | Gt => Esc ++ Itoa n ++ "S"
     | Lt => Esc ++ Itoa (neg a n) ++ "T"
     | Eq => ""
     end)%string.
Proof.
  unfold Scroll. rewrite Z.gtb_ltb.
  destruct (Z.compare_spec n 0) as [-> | Hlt | Hgt].
  - reflexivity.
  - destruct (Z.ltb_spec 0 n); [lia|].
    destruct (Z.ltb_spec n 0); [|lia]. now flatten.
  - destruct (Z.ltb_spec 0 n); [|lia]. now flatten.
Qed.

(** C4: [Scroll(n)] is the prefix, the decimal of [n] and ["S"] when [n]
    is positive, the prefix, the decimal of [-n] and ["T"] when [n] is
    negative, and the empty string when [n] is zero.  The negation is
    Go's: the opposite, except at the smallest [int]. *)
Theorem Scroll_by_sign (a : arch) (n : Z) :
  is_int a n ->
  Scroll a n =
    (match (n ?= 0)%Z with
     | Gt => Esc ++ Itoa n ++ "S"
     | Lt => Esc ++ Itoa (neg a n) ++ "T"
     | Eq => ""
     end)%string /\
  neg a n = (if n =? MinInt a then MinInt a else - n).
Proof.
  intros Hn. split; [apply Scroll_cases | now apply neg_cases].
Qed.

Lemma Scroll_by_sign_witness :
  is_int Arch64 (-5) /\
  Scroll Arch64 (-5) = (Esc ++ "5T")%string /\
  neg Arch64 (-5) = 5.
Proof.
  assert (H : is_int Arch64 (-5)) by (unfold is_int; cbn; lia).
  destruct (Scroll_by_sign Arch64 (-5) H) as (E & N).
  split; [exact H|]. rewrite E, N. split; reflexivity.
Defined.

(** C10: a relative move is its horizontal move followed by its vertical
    move, [CursorMove(x, y) = CursorMove(x, 0) ++ CursorMove(0, y)]. *)
Theorem CursorMove_decomposes (a : arch) (x y : Z) :
  CursorMove a x y = (CursorMove a x 0 ++ CursorMove a 0 y)%string.
Proof.
  rewrite !CursorMove_split.
  change (vertical a 0) with ""%string.
  change (horizontal a 0) with ""%string.
  now flatten.
Qed.

(** *** Signs in the output of [CursorMove] and [Scroll] *)

Lemma MinInt_neg (a : arch) : MinInt a < 0.
Proof. destruct a; reflexivity. Qed.

(** The number a component prints has a minus sign at one input only. *)
Lemma Itoa_neg_minus (a : arch) (x : Z) :
  is_int a x -> x < 0 -> has_minus (Itoa (neg a x)) = (x =? MinInt a).
Proof.
  intros H Hneg. rewrite StrconvFacts.Itoa_has_minus, neg_cases by assumption.
  pose proof (MinInt_neg a).
  destruct (Z.eqb_spec x (MinInt a)); apply Z.ltb_lt || apply Z.ltb_ge; lia.
Qed.

Lemma horizontal_minus (a : arch) (x : Z) :
  is_int a x -> has_minus (horizontal a x) = (x =? MinInt a).
Proof.
  intros H. unfold horizontal. pose proof (MinInt_neg a).
  destruct (Z.compare_spec x 0) as [-> | Hlt | Hgt].
  - symmetry. apply Z.eqb_neq. lia.
  - rewrite !has_minus_app, Itoa_neg_minus by assumption.
    cbn. now rewrite orb_false_r.
  - rewrite !has_minus_app, StrconvFacts.Itoa_has_minus. cbn.
    rewrite orb_false_r.
    destruct (Z.ltb_spec x 0); [lia|]. symmetry. apply Z.eqb_neq. lia.
Qed.

Lemma vertical_minus (a : arch) (y : Z) :
  is_int a y -> has_minus (vertical a y) = (y =? MinInt a).
Proof.
  intros H. unfold vertical. pose proof (MinInt_neg a).
  destruct (Z.compare_spec y 0) as [-> | Hlt | Hgt].
  - symmetry. apply Z.eqb_neq. lia.
  - rewrite !has_minus_app, Itoa_neg_minus by assumption.
    cbn. now rewrite orb_false_r.
  - rewrite !has_minus_app, StrconvFacts.Itoa_has_minus. cbn.
    rewrite orb_false_r.
    destruct (Z.ltb_spec y 0); [lia|]. symmetry. apply Z.eqb_neq. lia.
Qed.

(** A minus sign is printed exactly when an argument is the smallest
    [int]. *)
Lemma CursorMove_minus (a : arch) (x y : Z) :
  is_int a x -> is_int a y ->
  has_minus (CursorMove a x y) = (x =? MinInt a) || (y =? MinInt a).
Proof.
  intros Hx Hy.
  now rewrite CursorMove_split, has_minus_app, horizontal_minus, vertical_minus.
Qed.

Lemma Scroll_minus (a : arch) (n : Z) :
  is_int a n -> has_minus (Scroll a n) = (n =? MinInt a).
Proof.
  intros H. rewrite Scroll_cases.
  pose proof (MinInt_neg a).
  destruct (Z.compare_spec n 0) as [-> | Hlt | Hgt].
  - symmetry. apply Z.eqb_neq. lia.
  - rewrite !has_minus_app, Itoa_neg_minus by assumption.
    cbn. now rewrite orb_false_r.
  - rewrite !has_minus_app, StrconvFacts.Itoa_has_minus. cbn.
    rewrite orb_false_r.
    destruct (Z.ltb_spec n 0); [lia|]. symmetry. apply Z.eqb_neq. lia.
Qed.

(** Away from the smallest [int], the number printed for a negative
    argument is the shortest numeral of its magnitude. *)
Lemma magnitude_canonical (a : arch) (x : Z) :
  is_int a x -> x < 0 -> x <> MinInt a ->
  canonical (Itoa (neg a x)) = true /\
  value (Itoa (neg a x)) = Z.abs x /\
  forall t, numeral t = true -> value t = Z.abs x ->
            (String.length (Itoa (neg a x)) <= String.length t)%nat.
Proof.
  intros H Hneg Hne.
  rewrite neg_small by (unfold is_int in H; (assumption || lia)).
  replace (- x) with (Z.abs x) by lia.
  destruct (StrconvFacts.Itoa_nonneg (Z.abs x) ltac:(lia)) as (Hc & Hv & _).
  repeat split; try assumption.
  intros t Ht Hvt. apply StrconvFacts.Itoa_shortest; [lia | assumption | assumption].
Qed.

(** C5, at the input where the code departs from it: the negation of the
    smallest [int] wraps around to itself, so [CursorMove] and [Scroll]
    print its decimal with the minus sign. *)
Theorem CursorMove_Scroll_MinInt (a : arch) :
  is_intb a (MinInt a) = true /\
  neg a (MinInt a) = MinInt a /\
  CursorMove a (MinInt a) 0 = (Esc ++ Itoa (MinInt a) ++ "D")%string /\
  CursorMove a 0 (MinInt a) = (Esc ++ Itoa (MinInt a) ++ "A")%string /\
  Scroll a (MinInt a) = (Esc ++ Itoa (MinInt a) ++ "T")%string /\
  has_minus (CursorMove a (MinInt a) 0) = true /\
  has_minus (CursorMove a 0 (MinInt a)) = true /\
  has_minus (Scroll a (MinInt a)) = true /\
  CursorMove Arch64 (MinInt Arch64) 0
    = (Esc ++ "-9223372036854775808D")%string /\
  Scroll Arch64 (MinInt Arch64) = (Esc ++ "-9223372036854775808T")%string /\
  CursorMove Arch32 (MinInt Arch32) 0 = (Esc ++ "-2147483648D")%string /\
  Scroll Arch32 (MinInt Arch32) = (Esc ++ "-2147483648T")%string.
Proof.
  destruct a; repeat split; vm_compute; reflexivity.
Qed.

(** C6: for every [n], negative and zero included, the five text-edit
    functions return the prefix, the decimal of [n] as it is, and their
    letter: ["@"], ["P"], ["X"], ["L"], ["M"]. *)
Theorem TextEdit_passthrough (n : Z) :
  TextInsertChars n = (Esc ++ Itoa n ++ "@")%string /\
  TextDeleteChars n = (Esc ++ Itoa n ++ "P")%string /\
  TextEraseChars n = (Esc ++ Itoa n ++ "X")%string /\
  TextInsertLines n = (Esc ++ Itoa n ++ "L")%string /\
  TextDeleteLines n = (Esc ++ Itoa n ++ "M")%string /\
  has_minus (Itoa n) = (n <? 0) /\
  TextInsertChars (-3) = (Esc ++ "-3@")%string /\
  TextDeleteChars 0 = (Esc ++ "0P")%string.
Proof.
  unfold TextInsertChars, TextDeleteChars, TextEraseChars,
    TextInsertLines, TextDeleteLines.
  repeat split; try (now flatten).
  apply StrconvFacts.Itoa_has_minus.
Qed.

(** C8: [Link(url, text)] is [Osc], ["8;;"], the url, [Bel], the text,
    [Osc], ["8;;"] and [Bel], whatever the two strings hold. *)
Theorem Link_envelope (url text : string) :
  Link url text
    = (Osc ++ "8;;" ++ url ++ Bel ++ text ++ Osc ++ "8;;" ++ Bel)%string.
Proof. unfold Link. now flatten. Qed.

(** The arguments are copied byte for byte: nothing is added, dropped or
    escaped. *)
Lemma Link_length (url text : string) :
  String.length (Link url text)
    = (12 + String.length url + String.length text)%nat.
Proof.
  unfold Link. rewrite !append_length. cbn [String.length Osc Bel].
  lia.
Qed.

Example Link_empty : Link "" "" = (Osc ++ "8;;" ++ Bel ++ Osc ++ "8;;" ++ Bel)%string.
Proof. reflexivity. Qed.

Example Link_with_terminator :
  Link Bel Bel = (Osc ++ "8;;" ++ Bel ++ Bel ++ Bel ++ Osc ++ "8;;" ++ Bel)%string.
Proof. reflexivity. Qed.

(** C1: [ImageWidthHeight(img, height, width, p)] is [Osc] and
    ["1337;File=inline=1"], then [";width="] and the decimal of the
    [height] argument exactly when that argument is positive, then
    [";height="] and the decimal of the [width] argument exactly when that
    one is positive, then [";preserveAspectRatio=0"] exactly when [p] is
    false, then [":"], the padded standard base64 of [img], and [Bel]. *)
Theorem ImageWidthHeight_layout (img : list byte) (height width : Z) (p : bool) :
  ImageWidthHeight img height width p =
    (Osc ++ "1337;File=inline=1"
     ++ (if (0 <? height)%Z then ";width=" ++ Itoa height else "")
     ++ (if (0 <? width)%Z then ";height=" ++ Itoa width else "")
     ++ (if p then "" else ";preserveAspectRatio=0")
     ++ ":" ++ Base64.EncodeToString img ++ Bel)%string.
Proof.
  unfold ImageWidthHeight. rewrite !Z.gtb_ltb.
  destruct (0 <? height), (0 <? width), p; cbn [negb]; now flatten.
Qed.

Example ImageWidthHeight_10_20 :
  ImageWidthHeight [x66; x6f] 10 20 true
    = (Osc ++ "1337;File=inline=1;width=10;height=20:Zm8=" ++ Bel)%string.
Proof. reflexivity. Qed.

Example ImageWidthHeight_0_0 :
  ImageWidthHeight [x66; x6f] 0 0 false
    = (Osc ++ "1337;File=inline=1;preserveAspectRatio=0:Zm8=" ++ Bel)%string.
Proof. reflexivity. Qed.

(** The two arguments are told apart by the field they feed. *)
Example ImageWidthHeight_crossed :
  ImageWidthHeight [] 7 0 true = (Osc ++ "1337;File=inline=1;width=7:" ++ Bel)%string /\
  ImageWidthHeight [] 0 7 true = (Osc ++ "1337;File=inline=1;height=7:" ++ Bel)%string.
Proof. split; reflexivity. Qed.

(** C7: [Image(img)] is [ImageWidthHeight(img, 0, 0, true)], which has no
    size field and no aspect-ratio field. *)
Theorem Image_delegates (img : list byte) :
  Image img = ImageWidthHeight img 0 0 true /\
  Image img
    = (Osc ++ "1337;File=inline=1:" ++ Base64.EncodeToString img ++ Bel)%string.
Proof.
  split; [reflexivity|].
  unfold Image, ImageWidthHeight. cbn [Z.gtb Z.compare negb]. now flatten.
Qed.

(** [SetCwd] wraps the directory as it is. *)
Lemma SetCwd_envelope (dir : string) :
  SetCwd dir = (Osc ++ "50;CurrentDir=" ++ dir ++ Bel)%string.
Proof. unfold SetCwd. now flatten. Qed.

Example SetCwd_tmp : SetCwd "/tmp" = (Osc ++ "50;CurrentDir=/tmp" ++ Bel)%string.
Proof. reflexivity. Qed.

(** ** The constant table *)

(** C9: [CursorBlinkDisable] is the prefix and ["?12I"], ending in an
    upper-case ['I'] where [CursorBlinkEnable], the prefix and ["?12h"],
    ends in a lower-case letter; [ClearScreen] is the two bytes ESC
    (0x1B) and ['c'], and does not start with the prefix, as every other
    constant of the table does. *)
Theorem constants_literal :
  Esc = String (ascii_of_N 27) (String (ascii_of_N 91) "") /\
  CursorBlinkDisable = (Esc ++ "?12I")%string /\
  CursorBlinkEnable = (Esc ++ "?12h")%string /\
  final_byte CursorBlinkDisable = Some (ascii_of_N 73) /\
  final_byte CursorBlinkEnable = Some (ascii_of_N 104) /\
  is_upper (ascii_of_N 73) = true /\
  is_lower (ascii_of_N 104) = true /\
  ClearScreen = String (ascii_of_N 27) (String (ascii_of_N 99) "") /\
  ClearScreen = String (ascii_of_N 27) "c" /\
  String.length ClearScreen = 2%nat /\
  String.prefix Esc ClearScreen = false /\
  forallb (String.prefix Esc) EscConstants = true.
Proof. repeat split. Qed.

(** * Further properties *)

(** ** Strings, continued *)

Lemma append_inv_head (s t t' : string) :
  (s ++ t)%string = (s ++ t')%string -> t = t'.
Proof.
  induction s as [|c s IH]; simpl; intros E; [assumption|].
  injection E as E. auto.
Qed.

Lemma append_inv_tail (s t t' : string) :
  (t ++ s)%string = (t' ++ s)%string -> t = t'.
Proof.
  revert t'. induction t as [|c t IH]; intros [|c' t']; simpl; intros E.
  - reflexivity.
  - apply (f_equal String.length) in E. simpl in E.
    rewrite append_length in E. lia.
  - apply (f_equal String.length) in E. simpl in E.
    rewrite append_length in E. lia.
  - injection E as -> E. f_equal. auto.
Qed.

Lemma any_app (P : ascii -> bool) (s t : string) :
  any P (s ++ t) = any P s || any P t.
Proof.
  induction s as [|c s IH]; simpl; [reflexivity|].
  now rewrite IH, orb_assoc.
Qed.

(** Two strings that agree up to their first byte of a kind agree on that
    byte and on both sides of it. *)
Lemma split_at_first (P : ascii -> bool) (s s' t t' : string) (c c' : ascii) :
  any P s = false -> any P s' = false -> P c = true -> P c' = true ->
  (s ++ String c t)%string = (s' ++ String c' t')%string ->
  s = s' /\ c = c' /\ t = t'.
Proof.
  revert s'. induction s as [|d s IH]; intros [|d' s']; simpl;
    intros Hs Hs' Hc Hc' E.
  - injection E as -> ->. auto.
  - injection E as -> _. apply orb_false_iff in Hs'. destruct Hs'. congruence.
  - injection E as <- _. apply orb_false_iff in Hs. destruct Hs. congruence.
  - injection E as -> E.
    apply orb_false_iff in Hs. apply orb_false_iff in Hs'.
    destruct (IH s' (proj2 Hs) (proj2 Hs') Hc Hc' E) as (-> & -> & ->). auto.
Qed.

Lemma final_byte_snoc (s : string) (c : ascii) :
  final_byte (s ++ String c "") = Some c.
Proof.
  induction s as [|d s IH]; [reflexivity|].
  simpl. rewrite IH. destruct (s ++ String c "")%string eqn:E; [|reflexivity].
  destruct s; discriminate.
Qed.

Lemma final_byte_app (s t : string) :
  t <> ""%string -> final_byte (s ++ t) = final_byte t.
Proof.
  intros Ht. induction s as [|d s IH]; [reflexivity|].
  simpl. rewrite IH. destruct (s ++ t)%string eqn:E; [|reflexivity].
  destruct s; [simpl in E; contradiction | discriminate].
Qed.

(** ** [strconv.Itoa], continued *)

Lemma all_digits_any (P : ascii -> bool) (s : string) :
  (forall c, is_digit c = true -> P c = false) ->
  all_digits s = true -> any P s = false.
Proof.
  intros HP. induction s as [|c s IH]; simpl; [reflexivity|].
  rewrite andb_true_iff. intros [Hc Hs]. now rewrite (HP c Hc), IH.
Qed.

Lemma formatUint_digits (u : Z) : 0 <= u -> all_digits (formatUint u) = true.
Proof.
  intros H. unfold formatUint.
  apply (StrconvFacts.formatBits_spec _ _ (StrconvFacts.log2_fuel u H)).
Qed.

(** [Itoa] prints digits and at most a minus sign, nothing else. *)
Lemma Itoa_any (P : ascii -> bool) (n : Z) :
  (forall c, is_digit c = true -> P c = false) -> P "-"%char = false ->
  any P (Itoa n) = false.
Proof.
  intros HP Hm. unfold Itoa. destruct (Z.ltb_spec n 0).
  - simpl. rewrite Hm. apply all_digits_any; [assumption|].
    apply formatUint_digits. lia.
  - apply all_digits_any; [assumption|]. now apply formatUint_digits.
Qed.

(** Different numbers print differently. *)
Lemma Itoa_inj (n m : Z) : Itoa n = Itoa m -> n = m.
Proof.
  intros E.
  assert (Hs : (n <? 0) = (m <? 0))
    by (rewrite <- !StrconvFacts.Itoa_has_minus; now rewrite E).
  destruct (Z.ltb_spec n 0) as [Hn | Hn]; symmetry in Hs.
  - apply Z.ltb_lt in Hs.
    rewrite (StrconvFacts.Itoa_neg n), (StrconvFacts.Itoa_neg m) in E by assumption.
    injection E as E. apply (f_equal value) in E.
    destruct (StrconvFacts.Itoa_nonneg (- n) ltac:(lia)) as (_ & Vn & _).
    destruct (StrconvFacts.Itoa_nonneg (- m) ltac:(lia)) as (_ & Vm & _).
    lia.
  - apply Z.ltb_ge in Hs. apply (f_equal value) in E.
    destruct (StrconvFacts.Itoa_nonneg n Hn) as (_ & Vn & _).
    destruct (StrconvFacts.Itoa_nonneg m Hs) as (_ & Vm & _).
    lia.
Qed.

Lemma Itoa_nonempty (n : Z) : Itoa n <> ""%string.
Proof.
  unfold Itoa, formatUint. destruct (n <? 0); [discriminate|].
  apply StrconvFacts.formatBits_nonempty.
Qed.

(** ** Go's [int], continued *)

Lemma MinInt_MaxInt (a : arch) : MinInt a = - MaxInt a - 1.
Proof. destruct a; reflexivity. Qed.

Lemma MaxInt_pos (a : arch) : 0 < MaxInt a.
Proof. destruct a; reflexivity. Qed.

(** On [int], adding one and negating lose nothing, overflow or not. *)
Lemma add_1_inj (a : arch) (x x' : Z) :
  is_int a x -> is_int a x' -> add a x 1 = add a x' 1 -> x = x'.
Proof.
  intros H H'. rewrite !add_1_cases by assumption.
  pose proof (MinInt_MaxInt a). unfold is_int in *.
  destruct (Z.eqb_spec x (MaxInt a)), (Z.eqb_spec x' (MaxInt a)); lia.
Qed.

Lemma neg_inj (a : arch) (x x' : Z) :
  is_int a x -> is_int a x' -> neg a x = neg a x' -> x = x'.
Proof.
  intros H H'. rewrite !neg_cases by assumption.
  pose proof (MinInt_MaxInt a). unfold is_int in *.
  destruct (Z.eqb_spec x (MinInt a)), (Z.eqb_spec x' (MinInt a)); lia.
Qed.

(** ** Absolute positions: [CursorPosX], [CursorPosY], [CursorPos] *)

Lemma digit_not (c d : ascii) :
  is_digit d = false -> is_digit c = true -> (d =? c)%char = false.
Proof.
  intros Hd Hc. destruct (Ascii.eqb_spec d c) as [-> | _]; congruence.
Qed.

Lemma small_is_int (a : arch) (x : Z) : is_intb Arch32 x = true -> is_int a x.
Proof.
  intros H. apply is_intb_spec in H.
  destruct a; unfold is_int, MinInt, MaxInt in *; simpl in *; lia.
Qed.

(** X1: Different columns give different sequences, and so do different rows
    and different positions, the wrap at the largest [int] included. *)
Theorem CursorPos_injective (a : arch) (x y x' y' : Z) :
  is_int a x -> is_int a y -> is_int a x' -> is_int a y' ->
  (CursorPosX a x = CursorPosX a x' <-> x = x') /\
  (CursorPosY a y = CursorPosY a y' <-> y = y') /\
  (CursorPos a x y = CursorPos a x' y' <-> x = x' /\ y = y').
Proof.
  intros Hx Hy Hx' Hy'. unfold CursorPosX, CursorPosY, CursorPos.
  split; [|split]; (split; [intros E | intros G; try destruct G; now subst]).
  - apply append_inv_tail, append_inv_head, Itoa_inj in E.
    now apply add_1_inj in E.
  - apply append_inv_tail, append_inv_head, Itoa_inj in E.
    now apply add_1_inj in E.
  - apply append_inv_tail in E. rewrite !append_assoc in E.
    apply append_inv_head in E. cbn [append] in E.
    apply (split_at_first (Ascii.eqb ";")) in E;
      try reflexivity;
      try (apply Itoa_any; [intros c; now apply digit_not | reflexivity]).
    destruct E as (Ey & _ & Ex).
    apply Itoa_inj, add_1_inj in Ey; try assumption.
    apply Itoa_inj, add_1_inj in Ex; try assumption.
    now split.
Qed.

Lemma CursorPos_injective_witness :
  is_int Arch64 2 /\ is_int Arch64 3 /\
  is_int Arch64 (MaxInt Arch64) /\ is_int Arch64 (-1) /\
  (CursorPos Arch64 2 3 = CursorPos Arch64 (MaxInt Arch64) (-1)
   <-> 2 = MaxInt Arch64 /\ 3 = -1).
Proof.
  assert (H2 : is_int Arch64 2) by (apply small_is_int; reflexivity).
  assert (H3 : is_int Arch64 3) by (apply small_is_int; reflexivity).
  assert (HM : is_int Arch64 (MaxInt Arch64)) by apply MaxInt_is_int.
  assert (H1 : is_int Arch64 (-1)) by (apply small_is_int; reflexivity).
  exact (conj H2 (conj H3 (conj HM (conj H1
    (proj2 (proj2
       (CursorPos_injective Arch64 2 3 (MaxInt Arch64) (-1) H2 H3 HM H1))))))).
Defined.

(** X2: The number [CursorPosX] and [CursorPosY] print is negative exactly
    for a coordinate below -1 and for the largest [int]; [CursorPos] prints
    a minus sign when either of its coordinates is one of these. *)
Theorem CursorPos_sign (a : arch) (x y : Z) :
  is_int a x -> is_int a y ->
  has_minus (CursorPosX a x) = (x <? -1) || (x =? MaxInt a) /\
  has_minus (CursorPosY a y) = (y <? -1) || (y =? MaxInt a) /\
  has_minus (CursorPos a x y)
    = ((y <? -1) || (y =? MaxInt a)) || ((x <? -1) || (x =? MaxInt a)).
Proof.
  intros Hx Hy.
  assert (S : forall z, is_int a z ->
                has_minus (Itoa (add a z 1)) = (z <? -1) || (z =? MaxInt a)).
  { intros z Hz. rewrite StrconvFacts.Itoa_has_minus, add_1_cases by assumption.
    pose proof (MinInt_neg a). pose proof (MaxInt_pos a).
    destruct (Z.eqb_spec z (MaxInt a)) as [-> | Hne].
    - rewrite orb_true_r. apply Z.ltb_lt. assumption.
    - rewrite orb_false_r.
      destruct (Z.ltb_spec z (-1)); [apply Z.ltb_lt | apply Z.ltb_ge]; lia. }
  unfold CursorPosX, CursorPosY, CursorPos.
  rewrite !has_minus_app, !S by assumption. cbn [has_minus Esc Ascii.eqb].
  cbn. rewrite !orb_false_r. auto.
Qed.

Lemma CursorPos_sign_witness :
  is_int Arch32 (-2) /\ is_int Arch32 0 /\
  has_minus (CursorPosX Arch32 (-2)) = true /\
  has_minus (CursorPosY Arch32 0) = false.
Proof.
  assert (H2 : is_int Arch32 (-2)) by (apply small_is_int; reflexivity).
  assert (H0 : is_int Arch32 0) by (apply small_is_int; reflexivity).
  destruct (CursorPos_sign Arch32 (-2) 0 H2 H0) as (EX & EY & _).
  exact (conj H2 (conj H0 (conj EX EY))).
Defined.

(** ** Relative moves: [CursorMove] and [Scroll] *)

Lemma Esc_no_upper : any is_upper Esc = false.
Proof. reflexivity. Qed.

Lemma digit_not_upper (c : ascii) : is_digit c = true -> is_upper c = false.
Proof.
  unfold is_digit, is_upper. cbv zeta.
  rewrite andb_true_iff, andb_false_iff, !N.leb_le, !N.leb_gt. lia.
Qed.

Lemma Itoa_no_upper (n : Z) : any is_upper (Itoa n) = false.
Proof. apply Itoa_any; [apply digit_not_upper | reflexivity]. Qed.

Lemma component_empty (a : arch) (ln lp : ascii) (d : Z) :
  component a ln lp d = ""%string <-> d = 0.
Proof.
  unfold component. destruct (Z.compare_spec d 0) as [-> | H | H].
  - tauto.
  - split; [discriminate | lia].
  - split; [discriminate | lia].
Qed.

(** A component that is not empty is a part without capitals and a
    capital letter. *)
Lemma component_shape (a : arch) (ln lp : ascii) (d : Z) :
  d <> 0 ->
  exists pre l,
    component a ln lp d = (pre ++ String l "")%string /\
    any is_upper pre = false /\ (l = ln \/ l = lp).
Proof.
  intros Hd. unfold component.
  destruct (Z.compare_spec d 0) as [-> | H | H]; [contradiction| |].
  - exists (Esc ++ Itoa (neg a d))%string, ln.
    rewrite append_assoc, any_app, Esc_no_upper, Itoa_no_upper. auto.
  - exists (Esc ++ Itoa d)%string, lp.
    rewrite append_assoc, any_app, Esc_no_upper, Itoa_no_upper. auto.
Qed.

Lemma numbered_eq (p q : Z) (l l' : ascii) :
  (Esc ++ Itoa p ++ String l "")%string = (Esc ++ Itoa q ++ String l' "")%string ->
  p = q /\ l = l'.
Proof.
  intros E. apply append_inv_head in E.
  pose proof (f_equal final_byte E) as F.
  rewrite !final_byte_snoc in F. injection F as <-.
  apply append_inv_tail, Itoa_inj in E. auto.
Qed.

Lemma component_inj (a : arch) (ln lp : ascii) (d d' : Z) :
  ln <> lp -> is_int a d -> is_int a d' ->
  component a ln lp d = component a ln lp d' -> d = d'.
Proof.
  intros Hl Hd Hd'. unfold component.
  destruct (Z.compare_spec d 0) as [-> | H | H];
    destruct (Z.compare_spec d' 0) as [-> | H' | H']; intros E;
    try reflexivity; try discriminate E;
    apply numbered_eq in E; destruct E as [E L];
    try congruence.
  now apply neg_inj in E.
Qed.

Lemma horizontal_component (a : arch) (x : Z) :
  horizontal a x = component a "D" "C" x.
Proof. reflexivity. Qed.

Lemma vertical_component (a : arch) (y : Z) :
  vertical a y = component a "A" "B" y.
Proof. reflexivity. Qed.

Lemma Scroll_component (a : arch) (n : Z) :
  Scroll a n = component a "T" "S" n.
Proof.
  rewrite Scroll_cases. unfold component. now destruct (n ?= 0).
Qed.

(** X3: [CursorMove] and [Scroll] return the empty string for zero offsets
    and for nothing else. *)
Theorem move_empty_iff_zero (a : arch) (x y n : Z) :
  (CursorMove a x y = ""%string <-> x = 0 /\ y = 0) /\
  (Scroll a n = ""%string <-> n = 0).
Proof.
  split.
  - rewrite CursorMove_split, horizontal_component, vertical_component.
    rewrite <- (component_empty a "D" "C" x), <- (component_empty a "A" "B" y).
    split.
    + intros E.
      destruct (component a "D" "C" x); [|discriminate E].
      simpl in E. auto.
    + intros [-> ->]. reflexivity.
  - rewrite Scroll_component. apply component_empty.
Qed.

(** X4: Different scroll amounts give different sequences. *)
Theorem Scroll_injective (a : arch) (n m : Z) :
  is_int a n -> is_int a m -> (Scroll a n = Scroll a m <-> n = m).
Proof.
  intros Hn Hm. split; [|now intros ->].
  rewrite !Scroll_component. apply component_inj; [discriminate | assumption ..].
Qed.

Lemma Scroll_injective_witness :
  is_int Arch64 5 /\ is_int Arch64 (-5) /\
  (Scroll Arch64 5 = Scroll Arch64 (-5) <-> 5 = -5).
Proof.
  assert (H5 : is_int Arch64 5) by (apply small_is_int; reflexivity).
  assert (Hm : is_int Arch64 (-5)) by (apply small_is_int; reflexivity).
  exact (conj H5 (conj Hm (Scroll_injective Arch64 5 (-5) H5 Hm))).
Defined.

(** X5: Different relative moves give different sequences: the output tells
    both offsets. *)
Theorem CursorMove_injective (a : arch) (x y x' y' : Z) :
  is_int a x -> is_int a y -> is_int a x' -> is_int a y' ->
  (CursorMove a x y = CursorMove a x' y' <-> x = x' /\ y = y').
Proof.
  intros Hx Hy Hx' Hy'. split; [|now intros [-> ->]].
  rewrite !CursorMove_split, !horizontal_component, !vertical_component.
  intros E.
  assert (HV : forall z z', is_int a z -> is_int a z' ->
             component a "A" "B" z = component a "A" "B" z' -> z = z')
    by (intros; eapply component_inj; eauto; discriminate).
  assert (HH : forall z z', is_int a z -> is_int a z' ->
             component a "D" "C" z = component a "D" "C" z' -> z = z')
    by (intros; eapply component_inj; eauto; discriminate).
  assert (Up : forall l : ascii, l = "D"%char \/ l = "C"%char \/ l = "A"%char \/ l = "B"%char ->
                    is_upper l = true)
    by (intros l [-> | [-> | [-> | ->]]]; reflexivity).
  destruct (Z.eq_dec x 0) as [-> | Nx]; destruct (Z.eq_dec x' 0) as [-> | Nx'].
  - split; [reflexivity|]. apply HV; assumption.
  - exfalso. change (component a "D" "C" 0) with ""%string in E.
    cbn [append] in E.
    destruct (component_shape a "D" "C" x' Nx') as (pre' & l' & E' & F' & L').
    rewrite E', append_assoc in E. cbn [append] in E.
    destruct (Z.eq_dec y 0) as [-> | Ny].
    + change (component a "A" "B" 0) with ""%string in E.
      destruct pre'; discriminate E.
    + destruct (component_shape a "A" "B" y Ny) as (pre & l & Ey & F & L).
      rewrite Ey in E.
      apply (split_at_first is_upper) in E; try assumption;
        try (apply Up; tauto).
      destruct E as (_ & El & _).
      destruct L as [-> | ->], L' as [-> | ->]; discriminate El.
  - exfalso. change (component a "D" "C" 0) with ""%string in E.
    cbn [append] in E.
    destruct (component_shape a "D" "C" x Nx) as (pre & l & Ex & F & L).
    rewrite Ex, append_assoc in E. cbn [append] in E.
    destruct (Z.eq_dec y' 0) as [-> | Ny'].
    + change (component a "A" "B" 0) with ""%string in E.
      destruct pre; discriminate E.
    + destruct (component_shape a "A" "B" y' Ny') as (pre' & l' & Ey & F' & L').
      rewrite Ey in E.
      apply (split_at_first is_upper) in E; try assumption;
        try (apply Up; tauto).
      destruct E as (_ & El & _).
      destruct L as [-> | ->], L' as [-> | ->]; discriminate El.
  - destruct (component_shape a "D" "C" x Nx) as (pre & l & Ex & F & L).
    destruct (component_shape a "D" "C" x' Nx') as (pre' & l' & Ex' & F' & L').
    pose proof E as E0.
    rewrite Ex, Ex', !append_assoc in E. cbn [append] in E.
    apply (split_at_first is_upper) in E; try assumption;
      try (apply Up; tauto).
    destruct E as (Ep & El & Ev).
    split; [|apply HV; assumption].
    apply HH; try assumption. rewrite Ex, Ex'. congruence.
Qed.

Lemma CursorMove_injective_witness :
  is_int Arch64 2 /\ is_int Arch64 (-4) /\ is_int Arch64 0 /\ is_int Arch64 2 /\
  (CursorMove Arch64 2 (-4) = CursorMove Arch64 0 2 <-> 2 = 0 /\ -4 = 2).
Proof.
  assert (H2 : is_int Arch64 2) by (apply small_is_int; reflexivity).
  assert (H4 : is_int Arch64 (-4)) by (apply small_is_int; reflexivity).
  assert (H0 : is_int Arch64 0) by (apply small_is_int; reflexivity).
  exact (conj H2 (conj H4 (conj H0 (conj H2
    (CursorMove_injective Arch64 2 (-4) 0 2 H2 H4 H0 H2))))).
Defined.

Lemma component_abs (a : arch) (ln lp : ascii) (d : Z) :
  is_int a d -> d <> MinInt a ->
  component a ln lp d =
    (if (d =? 0)%Z then ""
     else Esc ++ Itoa (Z.abs d) ++ String (if (d <? 0)%Z then ln else lp) "")%string.
Proof.
  intros H Hne. unfold component.
  destruct (Z.compare_spec d 0) as [-> | Hlt | Hgt].
  - reflexivity.
  - rewrite neg_small by (unfold is_int in H; (assumption || lia)).
    destruct (Z.eqb_spec d 0); [lia|]. destruct (Z.ltb_spec d 0); [|lia].
    now rewrite Z.abs_neq by lia.
  - destruct (Z.eqb_spec d 0); [lia|]. destruct (Z.ltb_spec d 0); [lia|].
    now rewrite Z.abs_eq by lia.
Qed.

(** X6: Away from the smallest [int], [Scroll(n)] is empty at zero and else
    the prefix, the numeral of the absolute value of [n], and ["T"] or
    ["S"] by the sign. *)
Theorem Scroll_magnitude (a : arch) (n : Z) :
  is_int a n -> n <> MinInt a ->
  Scroll a n =
    (if (n =? 0)%Z then ""
     else Esc ++ Itoa (Z.abs n) ++ (if (n <? 0)%Z then "T" else "S"))%string.
Proof.
  intros H Hne. rewrite Scroll_component, component_abs by assumption.
  destruct (n =? 0); [reflexivity|]. now destruct (n <? 0).
Qed.

Lemma Scroll_magnitude_witness :
  is_int Arch32 (-12) /\ -12 <> MinInt Arch32 /\
  Scroll Arch32 (-12) = (Esc ++ "12T")%string.
Proof.
  assert (H : is_int Arch32 (-12)) by (apply small_is_int; reflexivity).
  assert (N : -12 <> MinInt Arch32) by discriminate.
  exact (conj H (conj N (Scroll_magnitude Arch32 (-12) H N))).
Defined.

(** X7: Away from the smallest [int], each part of [CursorMove(x, y)] is
    empty at zero and else the prefix, the numeral of the absolute value of
    the offset, and the letter of its direction. *)
Theorem CursorMove_magnitude (a : arch) (x y : Z) :
  is_int a x -> is_int a y -> x <> MinInt a -> y <> MinInt a ->
  CursorMove a x y =
    ((if (x =? 0)%Z then ""
      else Esc ++ Itoa (Z.abs x) ++ (if (x <? 0)%Z then "D" else "C")) ++
     (if (y =? 0)%Z then ""
      else Esc ++ Itoa (Z.abs y) ++ (if (y <? 0)%Z then "A" else "B")))%string.
Proof.
  intros Hx Hy Nx Ny.
  rewrite CursorMove_split, horizontal_component, vertical_component.
  rewrite !component_abs by assumption.
  destruct (x =? 0), (x <? 0), (y =? 0), (y <? 0); reflexivity.
Qed.

Lemma CursorMove_magnitude_witness :
  is_int Arch32 (-3) /\ is_int Arch32 7 /\
  -3 <> MinInt Arch32 /\ 7 <> MinInt Arch32 /\
  CursorMove Arch32 (-3) 7 = ((Esc ++ "3D") ++ (Esc ++ "7B"))%string.
Proof.
  assert (H3 : is_int Arch32 (-3)) by (apply small_is_int; reflexivity).
  assert (H7 : is_int Arch32 7) by (apply small_is_int; reflexivity).
  assert (N3 : -3 <> MinInt Arch32) by discriminate.
  assert (N7 : 7 <> MinInt Arch32) by discriminate.
  exact (conj H3 (conj H7 (conj N3 (conj N7
    (CursorMove_magnitude Arch32 (-3) 7 H3 H7 N3 N7))))).
Defined.

(** X8: A minus sign in the output of [CursorMove] or [Scroll] means that an
    argument was the smallest [int]; no other argument gives one. *)
Theorem move_sign (a : arch) (x y n : Z) :
  is_int a x -> is_int a y -> is_int a n ->
  has_minus (CursorMove a x y) = (x =? MinInt a) || (y =? MinInt a) /\
  has_minus (Scroll a n) = (n =? MinInt a).
Proof.
  intros Hx Hy Hn. split; [now apply CursorMove_minus | now apply Scroll_minus].
Qed.

Lemma move_sign_witness :
  is_int Arch64 (-3) /\ is_int Arch64 (MinInt Arch64) /\ is_int Arch64 (-7) /\
  has_minus (CursorMove Arch64 (-3) (MinInt Arch64)) = true /\
  has_minus (Scroll Arch64 (-7)) = false.
Proof.
  assert (H3 : is_int Arch64 (-3)) by (apply small_is_int; reflexivity).
  assert (HM : is_int Arch64 (MinInt Arch64)) by apply MinInt_is_int.
  assert (H7 : is_int Arch64 (-7)) by (apply small_is_int; reflexivity).
  exact (conj H3 (conj HM (conj H7
    (move_sign Arch64 (-3) (MinInt Arch64) (-7) H3 HM H7)))).
Defined.

(** ** Text edits *)

Lemma edit_eq (n m : Z) (l l' : ascii) :
  ((Esc ++ Itoa n) ++ String l "")%string = ((Esc ++ Itoa m) ++ String l' "")%string ->
  n = m /\ l = l'.
Proof. rewrite !append_assoc. apply numbered_eq. Qed.

(** X9: The output of a text-edit function tells the count and the function:
    each of the five is injective, and no two of them ever agree. *)
Theorem TextEdit_unambiguous (n m : Z) :
  (TextInsertChars n = TextInsertChars m <-> n = m) /\
  (TextDeleteChars n = TextDeleteChars m <-> n = m) /\
  (TextEraseChars n = TextEraseChars m <-> n = m) /\
  (TextInsertLines n = TextInsertLines m <-> n = m) /\
  (TextDeleteLines n = TextDeleteLines m <-> n = m) /\
  TextInsertChars n <> TextDeleteChars m /\
  TextInsertChars n <> TextEraseChars m /\
  TextInsertChars n <> TextInsertLines m /\
  TextInsertChars n <> TextDeleteLines m /\
  TextDeleteChars n <> TextEraseChars m /\
  TextDeleteChars n <> TextInsertLines m /\
  TextDeleteChars n <> TextDeleteLines m /\
  TextEraseChars n <> TextInsertLines m /\
  TextEraseChars n <> TextDeleteLines m /\
  TextInsertLines n <> TextDeleteLines m.
Proof.
  unfold TextInsertChars, TextDeleteChars, TextEraseChars,
    TextInsertLines, TextDeleteLines.
  repeat match goal with
    | |- _ /\ _ => split
    | |- _ <-> _ => split; [intros E; now apply edit_eq in E | now intros ->]
    | |- _ <> _ => intros E; apply edit_eq in E; destruct E; discriminate
    end.
Qed.

(** ** Operating-system commands: [Link] and [SetCwd] *)

Lemma Link_flat (url text : string) :
  Link url text
    = (Osc ++ "8;;" ++ url ++ String "007" (text ++ (Osc ++ "8;;" ++ Bel)))%string.
Proof. unfold Link. flatten. reflexivity. Qed.

(** X10: A url without BEL is told apart from the text: two links with such
    urls are the same sequence only for the same url and the same text. *)
Theorem Link_injective (url text url' text' : string) :
  contains "007" url = false -> contains "007" url' = false ->
  (Link url text = Link url' text' <-> url = url' /\ text = text').
Proof.
  intros Hu Hu'. split; [|now intros [-> ->]].
  rewrite !Link_flat. intros E.
  apply append_inv_head, append_inv_head in E.
  apply (split_at_first (Ascii.eqb "007")) in E; try assumption; try reflexivity.
  destruct E as (-> & _ & E). apply append_inv_tail in E. auto.
Qed.

Lemma Link_injective_witness :
  contains "007" "http://x" = false /\ contains "007" "http://y" = false /\
  (Link "http://x" "t" = Link "http://y" "t" <-> "http://x" = "http://y" /\ "t" = "t")%string.
Proof.
  exact (conj eq_refl (conj eq_refl
    (Link_injective "http://x" "t" "http://y" "t" eq_refl eq_refl))).
Defined.

(** X11: Nothing is escaped: a BEL that ends the url and a BEL that starts the
    text give the same sequence, so the boundary between them is lost. *)
Theorem Link_boundary_lost (url text : string) :
  Link (url ++ Bel) text = Link url (Bel ++ text) /\
  (url ++ Bel)%string <> url.
Proof.
  split.
  - rewrite !Link_flat. unfold Bel. flatten. reflexivity.
  - intros E. apply (f_equal String.length) in E.
    rewrite append_length in E. simpl in E. lia.
Qed.

(** X12: [SetCwd] is injective: the directory is read back from the sequence,
    whatever bytes it holds. *)
Theorem SetCwd_injective (dir dir' : string) :
  SetCwd dir = SetCwd dir' <-> dir = dir'.
Proof.
  split; [|now intros ->]. unfold SetCwd. intros E.
  apply append_inv_tail, append_inv_head in E. assumption.
Qed.

(** ** Inline images: [ImageWidthHeight] and [Image] *)

Lemma alphabet_chars :
  forallb (fun n => b64_char (Base64.encode (Z.of_nat n))) (seq 0 64) = true.
Proof. vm_compute. reflexivity. Qed.

Lemma encode_b64_char (x : Z) : b64_char (Base64.encode (Z.land x 63)) = true.
Proof.
  rewrite Base64Facts.sextet0.
  pose proof (Base64Facts.mod64_range x) as R.
  pose proof alphabet_chars as T. rewrite forallb_forall in T.
  specialize (T (Z.to_nat (x mod 64))). rewrite Z2Nat.id in T by lia.
  apply T, in_seq. lia.
Qed.

(** [EncodeToString] prints base64 text and nothing else. *)
Lemma EncodeToString_any (P : ascii -> bool) (src : list byte) :
  (forall c, b64_char c = true -> P c = false) ->
  any P (Base64.EncodeToString src) = false.
Proof.
  intros HP.
  assert (Hpad : P Base64.StdPadding = false) by (apply HP; reflexivity).
  induction src as [| b0 | b0 b1 | b0 b1 b2 rest IH] using Base64Facts.list_ind3;
    cbn [Base64.EncodeToString any];
    rewrite ?(HP _ (encode_b64_char _)), ?Hpad, ?IH; reflexivity.
Qed.

Lemma b64_not (c d : ascii) :
  b64_char d = false -> b64_char c = true -> (d =? c)%char = false.
Proof.
  intros Hd Hc. destruct (Ascii.eqb_spec d c) as [-> | _]; congruence.
Qed.

Lemma contains_app (c : ascii) (s t : string) :
  contains c (s ++ t) = contains c s || contains c t.
Proof. apply any_app. Qed.

Lemma Itoa_lacks (d : ascii) (n : Z) :
  is_digit d = false -> (d =? "-")%char = false -> contains d (Itoa n) = false.
Proof.
  intros Hd Hm. apply Itoa_any; [intros c; now apply digit_not | assumption].
Qed.

Lemma fields_lack (d : ascii) (height width : Z) (p : bool) :
  is_digit d = false -> (d =? "-")%char = false ->
  contains d ";width=" = false -> contains d ";height=" = false ->
  contains d ";preserveAspectRatio=0" = false ->
  contains d (width_field height ++ height_field width ++ ratio_field p) = false.
Proof.
  intros Hd Hm K1 K2 K3.
  unfold width_field, height_field, ratio_field.
  destruct (0 <? height), (0 <? width), p;
    rewrite ?contains_app, ?K1, ?K2, ?K3, ?(Itoa_lacks d _ Hd Hm); reflexivity.
Qed.

(** The source, field by field. *)
Lemma ImageWidthHeight_fields (img : list byte) (height width : Z) (p : bool) :
  ImageWidthHeight img height width p =
    (Osc ++ "1337;File=inline=1"
     ++ (width_field height ++ height_field width ++ ratio_field p)
     ++ String ":" (Base64.EncodeToString img ++ Bel))%string.
Proof.
  unfold ImageWidthHeight, width_field, height_field, ratio_field.
  rewrite !Z.gtb_ltb.
  destruct (0 <? height), (0 <? width), p; cbn [negb]; now flatten.
Qed.

(** A number is read up to the end or up to the next semicolon. *)
Lemma numeral_then (n n' : Z) (r r' : string) :
  sep_start r -> sep_start r' ->
  (Itoa n ++ r)%string = (Itoa n' ++ r')%string -> n = n' /\ r = r'.
Proof.
  assert (L : forall m, contains ";" (Itoa m) = false)
    by (intros m; apply Itoa_lacks; reflexivity).
  intros [-> | [t ->]] [-> | [t' ->]] E.
  - rewrite !append_nil_r in E. split; [now apply Itoa_inj | reflexivity].
  - exfalso. rewrite append_nil_r in E.
    apply (f_equal (contains ";")) in E.
    rewrite contains_app, !L in E. discriminate E.
  - exfalso. rewrite append_nil_r in E.
    apply (f_equal (contains ";")) in E.
    rewrite contains_app, !L in E. discriminate E.
  - apply (split_at_first (Ascii.eqb ";")) in E; try apply L; try reflexivity.
    destruct E as (E & _ & ->). split; [now apply Itoa_inj | reflexivity].
Qed.

Lemma keyed_step (key : string) (n n' : Z) (r r' : string) :
  sep_start r -> sep_start r' ->
  ((key ++ Itoa n) ++ r)%string = ((key ++ Itoa n') ++ r')%string ->
  n = n' /\ r = r'.
Proof.
  intros Hr Hr'. rewrite !append_assoc. intros E.
  apply append_inv_head in E. now apply numeral_then.
Qed.

Lemma ratio_sep (p : bool) : sep_start (ratio_field p).
Proof. destruct p; [left | right; eexists]; reflexivity. Qed.

Lemma height_ratio_sep (width : Z) (p : bool) :
  sep_start (height_field width ++ ratio_field p).
Proof.
  unfold height_field, ratio_field.
  destruct (0 <? width), p; (left; reflexivity) || (right; eexists; reflexivity).
Qed.

Lemma shown_pos (n : Z) : (0 <? n) = true -> shown n = n.
Proof. intros H. apply Z.ltb_lt in H. unfold shown. lia. Qed.

Lemma shown_nonpos (n : Z) : (0 <? n) = false -> shown n = 0.
Proof. intros H. apply Z.ltb_ge in H. unfold shown. lia. Qed.

Lemma ratio_field_inj (p p' : bool) : ratio_field p = ratio_field p' -> p = p'.
Proof. destruct p, p'; (reflexivity || discriminate). Qed.

Lemma height_step (w w' : Z) (p p' : bool) :
  (height_field w ++ ratio_field p)%string
    = (height_field w' ++ ratio_field p')%string ->
  shown w = shown w' /\ p = p'.
Proof.
  unfold height_field.
  destruct (0 <? w) eqn:Hw, (0 <? w') eqn:Hw'; intros E.
  - apply keyed_step in E; try apply ratio_sep.
    destruct E as [-> E]. split; [reflexivity | now apply ratio_field_inj].
  - exfalso. destruct p'; discriminate E.
  - exfalso. destruct p; discriminate E.
  - rewrite (shown_nonpos w), (shown_nonpos w') by assumption.
    split; [reflexivity | now apply ratio_field_inj].
Qed.

Lemma width_step (h h' w w' : Z) (p p' : bool) :
  (width_field h ++ height_field w ++ ratio_field p)%string
    = (width_field h' ++ height_field w' ++ ratio_field p')%string ->
  shown h = shown h' /\ shown w = shown w' /\ p = p'.
Proof.
  unfold width_field.
  destruct (0 <? h) eqn:Hh, (0 <? h') eqn:Hh'; intros E.
  - apply keyed_step in E; try apply height_ratio_sep.
    destruct E as [-> E]. split; [reflexivity | now apply height_step].
  - exfalso. unfold height_field, ratio_field in E.
    destruct (0 <? w'), p'; discriminate E.
  - exfalso. unfold height_field, ratio_field in E.
    destruct (0 <? w), p; discriminate E.
  - rewrite (shown_nonpos h), (shown_nonpos h') by assumption.
    split; [reflexivity | now apply height_step].
Qed.

(** X13: A size below one is not printed: it counts as zero. *)
Theorem ImageWidthHeight_nonpositive (img : list byte) (height width : Z) (p : bool) :
  ImageWidthHeight img height width p
    = ImageWidthHeight img (shown height) (shown width) p /\
  ImageWidthHeight img (Z.min height 0) (Z.min width 0) true = Image img.
Proof.
  split.
  - rewrite !ImageWidthHeight_fields. unfold width_field, height_field.
    destruct (0 <? height) eqn:Hh, (0 <? width) eqn:Hw;
      rewrite ?(shown_pos height), ?(shown_pos width),
        ?(shown_nonpos height), ?(shown_nonpos width) by assumption;
      rewrite ?Hh, ?Hw; reflexivity.
  - unfold Image. rewrite !ImageWidthHeight_fields.
    unfold width_field, height_field.
    destruct (Z.ltb_spec 0 (Z.min height 0)); [lia|].
    destruct (Z.ltb_spec 0 (Z.min width 0)); [lia|]. reflexivity.
Qed.

(** X14: The sequence tells the image, the two sizes as far as they are
    printed, and the aspect-ratio flag; it tells nothing else apart. *)
Theorem ImageWidthHeight_injective
    (img img' : list byte) (height width height' width' : Z) (p p' : bool) :
  ImageWidthHeight img height width p = ImageWidthHeight img' height' width' p'
  <-> img = img' /\ shown height = shown height' /\
      shown width = shown width' /\ p = p'.
Proof.
  split.
  - rewrite !ImageWidthHeight_fields. intros E.
    apply append_inv_head, append_inv_head in E.
    apply (split_at_first (Ascii.eqb ":")) in E; try reflexivity;
      try (apply fields_lack; reflexivity).
    destruct E as (F & _ & B).
    apply append_inv_tail, Base64Facts.EncodeToString_inj in B.
    apply width_step in F. tauto.
  - intros (-> & Hh & Hw & ->).
    rewrite !ImageWidthHeight_fields. unfold width_field, height_field.
    destruct (0 <? height) eqn:A, (0 <? height') eqn:A',
             (0 <? width) eqn:B, (0 <? width') eqn:B';
      rewrite ?(shown_pos height), ?(shown_pos height'),
        ?(shown_nonpos height), ?(shown_nonpos height') in Hh by assumption;
      rewrite ?(shown_pos width), ?(shown_pos width'),
        ?(shown_nonpos width), ?(shown_nonpos width') in Hw by assumption;
      subst; try reflexivity; discriminate.
Qed.

(** X15: The only BEL of the sequence is its last byte: neither the fields
    nor the base64 text can end the command early. *)
Theorem ImageWidthHeight_one_terminator
    (img : list byte) (height width : Z) (p : bool) :
  exists body,
    ImageWidthHeight img height width p = (body ++ Bel)%string /\
    contains "007" body = false.
Proof.
  exists (Osc ++ "1337;File=inline=1"
          ++ (width_field height ++ height_field width ++ ratio_field p)
          ++ String ":" (Base64.EncodeToString img))%string.
  split.
  - rewrite ImageWidthHeight_fields. flatten. reflexivity.
  - do 3 rewrite contains_app.
    rewrite fields_lack by reflexivity.
    assert (B : contains "007" (Base64.EncodeToString img) = false)
      by (apply EncodeToString_any; intros c; now apply b64_not).
    change (contains "007" (String ":" (Base64.EncodeToString img)))
      with (("007" =? ":")%char || contains "007" (Base64.EncodeToString img)).
    rewrite B. reflexivity.
Qed.

(** X16: [Image] is 22 bytes of envelope around four characters for every
    three bytes of the image, the last group padded. *)
Theorem Image_length (img : list byte) :
  String.length (Image img) = (22 + 4 * ((List.length img + 2) / 3))%nat.
Proof.
  unfold Image. rewrite ImageWidthHeight_fields.
  rewrite !append_length. cbn [String.length width_field height_field
    ratio_field Z.ltb Z.compare Osc Bel append].
  rewrite append_length, Base64Facts.EncodeToString_length. simpl String.length. lia.
Qed.

(** ** The constant table, continued *)

Lemma distinct_NoDup (l : list string) : distinct l = true -> NoDup l.
Proof.
  induction l as [|s l IH]; simpl; intros H; constructor;
    apply andb_true_iff in H; destruct H as [Hs Hl]; [|auto].
  intros Hin. apply negb_true_iff in Hs.
  assert (existsb (String.eqb s) l = true) as C
    by (apply existsb_exists; exists s; split; [assumption | apply String.eqb_refl]).
  congruence.
Qed.

(** X17: No two names of the table stand for the same sequence. *)
Theorem constants_distinct :
  NoDup (ClearScreen :: EscConstants) /\
  List.length (ClearScreen :: EscConstants) = 62%nat.
Proof.
  split; [|reflexivity]. apply distinct_NoDup. vm_compute. reflexivity.
Qed.

(** X18: The colours follow one scheme: colour [i] of the eight, in the order
    of the table, is code [30 + i] as text and [40 + i] as background, and
    its bright form has [";1"] after the code. *)
Theorem colour_scheme :
  [ TextColorBlack; TextColorRed; TextColorGreen; TextColorYellow;
    TextColorBlue; TextColorMagenta; TextColorCyan; TextColorWhite ]
    = map (fun i => Esc ++ Itoa (30 + i) ++ "m")%string [0; 1; 2; 3; 4; 5; 6; 7] /\
  [ TextColorBrightBlack; TextColorBrightRed; TextColorBrightGreen;
    TextColorBrightYellow; TextColorBrightBlue; TextColorBrightMagenta;
    TextColorBrightCyan; TextColorBrightWhite ]
    = map (fun i => Esc ++ Itoa (30 + i) ++ ";1m")%string [0; 1; 2; 3; 4; 5; 6; 7] /\
  [ BackgroundColorBlack; BackgroundColorRed; BackgroundColorGreen;
    BackgroundColorYellow; BackgroundColorBlue; BackgroundColorMagenta;
    BackgroundColorCyan; BackgroundColorWhite ]
    = map (fun i => Esc ++ Itoa (40 + i) ++ "m")%string [0; 1; 2; 3; 4; 5; 6; 7] /\
  [ BackgroundColorBrightBlack; BackgroundColorBrightRed;
    BackgroundColorBrightGreen; BackgroundColorBrightYellow;
    BackgroundColorBrightBlue; BackgroundColorBrightMagenta;
    BackgroundColorBrightCyan; BackgroundColorBrightWhite ]
    = map (fun i => Esc ++ Itoa (40 + i) ++ ";1m")%string [0; 1; 2; 3; 4; 5; 6; 7].
Proof. repeat split. Qed.

Lemma with_param_Esc (p rest : string) :
  with_param p (Esc ++ rest) = (Esc ++ p ++ rest)%string.
Proof. reflexivity. Qed.

(** X19: Each function prints the sequence of its single-use constant with
    the number put in: a positive [Scroll] is [ScrollUp] and a negative one
    [ScrollDown]; a negative [x] moves by [CursorBackward], a positive one by
    [CursorForward], a negative [y] by [CursorUp], a positive one by
    [CursorDown]. *)
Theorem functions_extend_constants (a : arch) (x y n : Z) :
  CursorPosX a x = with_param (Itoa (add a x 1)) CursorLeft /\
  CursorPosY a y = with_param (Itoa (add a y 1)) CursorTop /\
  CursorPos a x y
    = with_param (Itoa (add a y 1) ++ ";" ++ Itoa (add a x 1)) CursorTopLeft /\
  Scroll a n =
    match (n ?= 0)%Z with
    | Gt => with_param (Itoa n) ScrollUp
    | Lt => with_param (Itoa (neg a n)) ScrollDown
    | Eq => ""%string
    end /\
  CursorMove a x y =
    (match (x ?= 0)%Z with
     | Lt => with_param (Itoa (neg a x)) CursorBackward
     | Gt => with_param (Itoa x) CursorForward
     | Eq => ""
     end ++
     match (y ?= 0)%Z with
     | Lt => with_param (Itoa (neg a y)) CursorUp
     | Gt => with_param (Itoa y) CursorDown
     | Eq => ""
     end)%string /\
  TextInsertChars n = with_param (Itoa n) TextInsertChar /\
  TextDeleteChars n = with_param (Itoa n) TextDeleteChar /\
  TextEraseChars n = with_param (Itoa n) TextEraseChar /\
  TextInsertLines n = with_param (Itoa n) TextInsertLine /\
  TextDeleteLines n = with_param (Itoa n) TextDeleteLine.
Proof.
  unfold CursorLeft, CursorTop, CursorTopLeft, ScrollUp, ScrollDown,
    CursorBackward, CursorForward, CursorUp, CursorDown,
    TextInsertChar, TextDeleteChar, TextEraseChar, TextInsertLine, TextDeleteLine.
  rewrite !with_param_Esc, Scroll_cases, CursorMove_split.
  unfold CursorPosX, CursorPosY, CursorPos, TextInsertChars, TextDeleteChars,
    TextEraseChars, TextInsertLines, TextDeleteLines.
  repeat split; now flatten.
Qed.
